(** * A Knex-like query builder over a hosted tabular store

    Shallow embedding of the database shim (the second document of
    [src/backend/routes/auth/auth/logout.js], lines 10-218): the chainable
    query descriptor made by [createQueryBuilder], its execution methods
    [_runSelect], [_runInsert], [_runUpdate], [_runDelete], the raw-query
    escape hatch [db.raw] and the schema probe [db.schema.hasTable].

    The hosted store's client ([supabase]) is external.  A call chain on
    it is recorded as a [request]; awaiting the chain hands the request to
    an abstract [remote] and yields its [reply]. *)

From Stdlib Require Import ZArith List String Bool Lia.
Import ListNotations.
Local Open Scope Z_scope.
Local Open Scope string_scope.
Set Warnings "-register-all".

(** ** The fragment of JavaScript values the shim handles *)

Module JS.

(** Numbers are the integer-valued ones (exact in a double below 2^53);
    objects carry their own enumerable properties in insertion order. *)
Inductive value : Type :=
| Undefined
| Null
| Bool (b : bool)
| Num (n : Z)
| Str (s : string)
| Obj (props : list (string * value))
| Arr (items : list value).

(** ToBoolean. *)
Definition truthy (v : value) : bool :=
  match v with
  | Undefined | Null => false
  | Bool b => b
  | Num n => negb (n =? 0)%Z
  | Str s => negb (s =? "")%string
  | Obj _ | Arr _ => true
  end.

(** [a || b]. *)
Definition or (a b : value) : value := if truthy a then a else b.

(** A parameter declared [p = d]: the default replaces [undefined],
    which is also what an omitted argument is. *)
Definition default_param (arg d : value) : value :=
  match arg with
  | Undefined => d
  | _ => arg
  end.

(** [v === 'lit'] against a string literal. *)
Definition is_string (v : value) (lit : string) : bool :=
  match v with
  | Str s => (s =? lit)%string
  | _ => false
  end.

Fixpoint lookup (key : string) (props : list (string * value)) : value :=
  match props with
  | [] => Undefined
  | (k, v) :: rest => if (k =? key)%string then v else lookup key rest
  end.

(** [v[0]].  [None] stands for the TypeError raised on [null] and
    [undefined].  A string is taken as 7-bit text, one character per
    UTF-16 unit. *)
Definition index0 (v : value) : option value :=
  match v with
  | Undefined | Null => None
  | Arr items => Some (hd Undefined items)
  | Str s =>
      Some match s with
           | EmptyString => Undefined
           | String c _ => Str (String c EmptyString)
           end
  | Obj props => Some (lookup "0" props)
  | Bool _ | Num _ => Some Undefined
  end.

(** [v.id].  [None] stands for the TypeError raised on [null] and
    [undefined]; primitives and arrays have no such property. *)
Definition dot_id (v : value) : option value :=
  match v with
  | Undefined | Null => None
  | Obj props => Some (lookup "id" props)
  | Arr _ | Str _ | Bool _ | Num _ => Some Undefined
  end.

(** A thrown value: whatever the program or the store threw, or the
    runtime's own TypeError. *)
Inductive exn : Type :=
| Thrown (v : value)
| TypeError.

End JS.

(** ** Calls on the store's client *)

Module Supabase.

(** What [supabase.from(table)] is asked to do first. *)
Inductive verb : Type :=
| select (columns : JS.value)
| insert (payload : JS.value)
| update (payload : JS.value)
| delete.

(** The chained calls that follow. *)
Inductive step : Type :=
| eq (column : string) (v : JS.value)
| order (column : string) (ascending : bool)
| limit (count : Z)
| range (from to : Z)
| returning.   (* the bare [.select()] after [.insert(...)] *)

Record request : Type := mkRequest {
  table : string;
  action : verb;
  steps : list step   (* in call order *)
}.

Definition from (table : string) (v : verb) : request :=
  mkRequest table v [].

(** [query.m(...)]: one more chained call. *)
Definition chained (query : request) (s : step) : request :=
  mkRequest (table query) (action query) (steps query ++ [s]).

(** What awaiting a chain gives: the [{ data, error }] object, or a
    rejection. *)
Inductive reply : Type :=
| Settled (data error : JS.value)
| Rejected (e : JS.exn).

End Supabase.

(** ** The query descriptor *)

Record where_entry : Type := mkWhere { field : string; value : JS.value }.

Record order_entry : Type :=
  mkOrder { order_field : string; direction : JS.value }.

(** [_limit] and [_offset] start as [null] ([None]) and are otherwise the
    integer passed to [limit] / [offset].  Sums and differences of them
    are written in [Z]; they are the program's, which computes in
    double precision, while operands and results stay within
    [-2^53, 2^53]: see [range_end_exact]. *)
Record descriptor : Type := mkDescriptor {
  _table : string;
  _wheres : list where_entry;
  _orders : list order_entry;
  _limit : option Z;
  _offset : option Z;
  _inserts : JS.value;
  _updates : JS.value
}.

Definition createQueryBuilder (tableName : string) : descriptor :=
  {| _table := tableName;
     _wheres := [];
     _orders := [];
     _limit := None;
     _offset := None;
     _inserts := JS.Null;
     _updates := JS.Null |}.

Definition db (tableName : string) : descriptor :=
  createQueryBuilder tableName.

(** The chainable methods mutate the descriptor and return it: the
    descriptor is threaded through. *)

Definition where_ (this : descriptor) (field : string) (value : JS.value)
  : descriptor :=
  {| _table := _table this;
     _wheres := _wheres this ++ [mkWhere field value];
     _orders := _orders this;
     _limit := _limit this;
     _offset := _offset this;
     _inserts := _inserts this;
     _updates := _updates this |}.

Definition orderBy (this : descriptor) (field : string) (direction : JS.value)
  : descriptor :=
  let direction := JS.default_param direction (JS.Str "asc") in
  {| _table := _table this;
     _wheres := _wheres this;
     _orders := _orders this ++ [mkOrder field direction];
     _limit := _limit this;
     _offset := _offset this;
     _inserts := _inserts this;
     _updates := _updates this |}.

Definition set_limit (this : descriptor) (l : option Z) : descriptor :=
  {| _table := _table this;
     _wheres := _wheres this;
     _orders := _orders this;
     _limit := l;
     _offset := _offset this;
     _inserts := _inserts this;
     _updates := _updates this |}.

Definition limit (this : descriptor) (limit : Z) : descriptor :=
  set_limit this (Some limit).

Definition offset (this : descriptor) (offset : Z) : descriptor :=
  {| _table := _table this;
     _wheres := _wheres this;
     _orders := _orders this;
     _limit := _limit this;
     _offset := Some offset;
     _inserts := _inserts this;
     _updates := _updates this |}.

Definition set_inserts (this : descriptor) (data : JS.value) : descriptor :=
  {| _table := _table this;
     _wheres := _wheres this;
     _orders := _orders this;
     _limit := _limit this;
     _offset := _offset this;
     _inserts := data;
     _updates := _updates this |}.

Definition set_updates (this : descriptor) (data : JS.value) : descriptor :=
  {| _table := _table this;
     _wheres := _wheres this;
     _orders := _orders this;
     _limit := _limit this;
     _offset := _offset this;
     _inserts := _inserts this;
     _updates := data |}.

(** [this._limit || 1000] on a limit that is [null] or an integer: [null]
    and [0] are both falsy. *)
Definition limit_or (l : option Z) (d : Z) : Z :=
  match l with
  | None => d
  | Some n => if (n =? 0)%Z then d else n
  end.

(** ** Effects: the store, the requests sent to it and the console *)

Section Shim.

(** The hosted store: some state, and what it answers to a request. *)
Context {store : Type}.
Variable remote : Supabase.request -> store -> Supabase.reply * store.

Record world : Type := mkWorld {
  remote_state : store;
  issued : list Supabase.request;   (* every chain awaited so far, oldest first *)
  console : list string             (* lines written by [console.log] *)
}.

(** How an async function ends: its promise is fulfilled or rejected. *)
Inductive outcome (A : Type) : Type :=
| Ok (a : A)
| Throw (e : JS.exn).

Arguments Ok {A} a.
Arguments Throw {A} e.

Definition M (A : Type) : Type := world -> outcome A * world.

Definition ret {A} (a : A) : M A := fun w => (Ok a, w).

Definition throw {A} (e : JS.exn) : M A := fun w => (Throw e, w).

Definition bind {A B} (m : M A) (k : A -> M B) : M B :=
  fun w =>
    match m w with
    | (Ok a, w') => k a w'
    | (Throw e, w') => (Throw e, w')
    end.

(** [try { m } catch (e) { handler e }], also [m.catch(handler)]. *)
Definition catch {A} (m : M A) (handler : JS.exn -> M A) : M A :=
  fun w =>
    match m w with
    | (Ok a, w') => (Ok a, w')
    | (Throw e, w') => handler e w'
    end.

Notation "x <- m ;; k" := (bind m (fun x => k))
  (at level 61, m at next level, right associativity).
Notation "' pat <- m ;; k" := (bind m (fun x => match x with pat => k end))
  (at level 61, pat pattern, m at next level, right associativity).

(** [await query]: one round trip, destructured as [{ data, error }]. *)
Definition await (query : Supabase.request) : M (JS.value * JS.value) :=
  fun w =>
    let (r, s) := remote query (remote_state w) in
    let w' := mkWorld s (issued w ++ [query]) (console w) in
    match r with
    | Supabase.Settled data error => (Ok (data, error), w')
    | Supabase.Rejected e => (Throw e, w')
    end.

Definition console_log (line : string) : M unit :=
  fun w => (Ok tt, mkWorld (remote_state w) (issued w) (console w ++ [line])).

(** A JavaScript operation that may raise a TypeError. *)
Definition or_TypeError {A} (o : option A) : M A :=
  match o with
  | Some a => ret a
  | None => throw JS.TypeError
  end.

(** The [for (const where of this._wheres)] loop shared by the read, update
    and delete paths. *)
Definition apply_wheres (wheres : list where_entry) (query : Supabase.request)
  : Supabase.request :=
  fold_left
    (fun query where_ =>
       Supabase.chained query (Supabase.eq (field where_) (value where_)))
    wheres query.

(** ** Execution methods *)

Definition _runSelect (this : descriptor) (columns : JS.value) : M JS.value :=
  let columns := JS.default_param columns (JS.Str "*") in
  let query := Supabase.from (_table this) (Supabase.select columns) in
  (* Apply wheres *)
  let query := apply_wheres (_wheres this) query in
  (* Apply ordering *)
  let query :=
    match _orders this with
    | o :: _ =>
        Supabase.chained query
          (Supabase.order (order_field o) (JS.is_string (direction o) "asc"))
    | [] => query
    end in
  (* Apply limit and offset *)
  let query :=
    match _limit this with
    | Some l => Supabase.chained query (Supabase.limit l)
    | None => query
    end in
  let query :=
    match _offset this with
    | Some o =>
        Supabase.chained query
          (Supabase.range o (o + limit_or (_limit this) 1000 - 1))
    | None => query
    end in
  ' (data, error) <- await query ;;
  if JS.truthy error then throw (JS.Thrown error)
  else ret (JS.or data (JS.Arr [])).

(** [data?.map(item => item.id)]: [undefined] on a nullish [data]; only an
    array has a [map] to call. *)
Fixpoint map_id (items : list JS.value) : option (list JS.value) :=
  match items with
  | [] => Some []
  | item :: rest =>
      match JS.dot_id item, map_id rest with
      | Some i, Some ids => Some (i :: ids)
      | _, _ => None
      end
  end.

Definition optional_map_id (data : JS.value) : option JS.value :=
  match data with
  | JS.Undefined | JS.Null => Some JS.Undefined
  | JS.Arr items => option_map JS.Arr (map_id items)
  | _ => None
  end.

Definition _runInsert (this : descriptor) : M JS.value :=
  let query :=
    Supabase.chained
      (Supabase.from (_table this) (Supabase.insert (_inserts this)))
      Supabase.returning in
  ' (data, error) <- await query ;;
  if JS.truthy error then throw (JS.Thrown error)
  else ids <- or_TypeError (optional_map_id data) ;;
       ret (JS.or ids (JS.Arr [])).

Definition _runUpdate (this : descriptor) : M JS.value :=
  let query := Supabase.from (_table this) (Supabase.update (_updates this)) in
  (* Apply wheres *)
  let query := apply_wheres (_wheres this) query in
  ' (data, error) <- await query ;;
  if JS.truthy error then throw (JS.Thrown error)
  else ret (if JS.truthy data then JS.Num 1 else JS.Num 0).

Definition _runDelete (this : descriptor) : M JS.value :=
  let query := Supabase.from (_table this) Supabase.delete in
  (* Apply wheres *)
  let query := apply_wheres (_wheres this) query in
  ' (_, error) <- await query ;;
  if JS.truthy error then throw (JS.Thrown error)
  else ret (JS.Num 1).

(** ** Terminal methods

    Each returns the descriptor as the call leaves it, and the promise. *)

Definition insert (this : descriptor) (data : JS.value)
  : descriptor * M JS.value :=
  let this := set_inserts this data in
  (this, _runInsert this).

Definition update (this : descriptor) (data : JS.value)
  : descriptor * M JS.value :=
  let this := set_updates this data in
  (this, _runUpdate this).

Definition delete (this : descriptor) : descriptor * M JS.value :=
  (this, _runDelete this).

Definition select (this : descriptor) (columns : JS.value)
  : descriptor * M JS.value :=
  (this, _runSelect this columns).

Definition first (this : descriptor) : descriptor * M JS.value :=
  let this := set_limit this (Some 1) in
  (this,
   data <- _runSelect this JS.Undefined ;;
   data0 <- or_TypeError (JS.index0 data) ;;
   ret (JS.or data0 JS.Null)).

(** [queryBuilder.then]: what makes the descriptor itself awaitable. *)
Definition then_ {A} (this : descriptor)
    (resolve : JS.value -> M A) (reject : JS.exn -> M A) : M A :=
  catch (bind (_runSelect this JS.Undefined) resolve) reject.

(** [await queryBuilder]: the runtime calls [then] with the two functions
    that settle the awaiting promise. *)
Definition await_descriptor (this : descriptor) : descriptor * M JS.value :=
  (this, then_ this ret throw).

(** ** Raw queries and the schema probe *)

Definition db_raw (sql : string) : M JS.value :=
  if (sql =? "SELECT 1")%string then
    ret (JS.Arr [JS.Obj [("1", JS.Num 1)]])
  else
    _ <- console_log ("[SUPABASE SHIM] Raw SQL not directly supported: " ++ sql) ;;
    ret (JS.Arr [JS.Obj [("message",
           JS.Str "Raw SQL queries are not directly supported with Supabase")]]).

Definition hasTable (tableName : string) : M JS.value :=
  catch
    (' (data, error) <-
       await (Supabase.chained
                (Supabase.from tableName (Supabase.select (JS.Str "count")))
                (Supabase.limit 1)) ;;
     ret (JS.Bool (negb (JS.truthy error))))
    (fun error => ret (JS.Bool false)).

(** ** Stand-ins kept for compatibility: schema changes, teardown, events *)

(** [tableBuilder] is accepted and never called. *)
Definition createTable {B : Type} (tableName : string) (tableBuilder : B)
  : M JS.value :=
  _ <- console_log ("[SUPABASE SHIM] Creating tables not supported: " ++ tableName) ;;
  ret (JS.Bool true).

Definition dropTable (tableName : string) : M JS.value :=
  _ <- console_log ("[SUPABASE SHIM] Dropping tables not supported: " ++ tableName) ;;
  ret (JS.Bool true).

Definition destroy : M JS.value :=
  _ <- console_log "[SUPABASE SHIM] Connection closed" ;;
  ret (JS.Bool true).

(** [callback] is accepted and never stored or called; the result is [db]
    itself. *)
Definition on {B : Type} (event : JS.value) (callback : B)
  : M (string -> descriptor) :=
  _ <- (if JS.is_string event "error"
        then console_log "[SUPABASE SHIM] Registered error handler"
        else ret tt) ;;
  ret db.

End Shim.

Arguments Ok {A} a.
Arguments Throw {A} e.

(** ** Vocabulary for the statements: call chains, triggers, observers *)

(** One chainable call.  An omitted direction is [JS.Undefined]. *)
Inductive chain_call : Type :=
| call_where (field : string) (value : JS.value)
| call_orderBy (field : string) (direction : JS.value)
| call_limit (n : Z)
| call_offset (n : Z).

Definition call (this : descriptor) (c : chain_call) : descriptor :=
  match c with
  | call_where f v => where_ this f v
  | call_orderBy f d => orderBy this f d
  | call_limit n => limit this n
  | call_offset n => offset this n
  end.

(** [this.c1(...).c2(...)...]. *)
Definition chain (this : descriptor) (cs : list chain_call) : descriptor :=
  fold_left call cs this.

Inductive read_trigger : Type :=
| by_select (columns : JS.value)
| by_first
| by_await.

Inductive terminal : Type :=
| reading (t : read_trigger)
| inserting (data : JS.value)
| updating (data : JS.value)
| deleting.

(** The arguments of the [where] calls of a chain, in call order. *)
Fixpoint where_calls (cs : list chain_call) : list (string * JS.value) :=
  match cs with
  | [] => []
  | call_where f v :: rest => (f, v) :: where_calls rest
  | _ :: rest => where_calls rest
  end.

(** The arguments of the [orderBy] calls of a chain, in call order. *)
Fixpoint orderBy_calls (cs : list chain_call) : list (string * JS.value) :=
  match cs with
  | [] => []
  | call_orderBy f d :: rest => (f, d) :: orderBy_calls rest
  | _ :: rest => orderBy_calls rest
  end.

(** The limit and offset a chain leaves, starting from [l] / [o]. *)
Fixpoint last_limit (cs : list chain_call) (l : option Z) : option Z :=
  match cs with
  | [] => l
  | call_limit n :: rest => last_limit rest (Some n)
  | _ :: rest => last_limit rest l
  end.

Fixpoint last_offset (cs : list chain_call) (o : option Z) : option Z :=
  match cs with
  | [] => o
  | call_offset n :: rest => last_offset rest (Some n)
  | _ :: rest => last_offset rest o
  end.

Definition is_orderBy (c : chain_call) : bool :=
  match c with
  | call_orderBy _ _ => true
  | _ => false
  end.

(** The chain with every [orderBy] after the first one taken out. *)
Fixpoint without_later_orderBy (cs : list chain_call) : list chain_call :=
  match cs with
  | [] => []
  | call_orderBy f d :: rest =>
      call_orderBy f d :: filter (fun c => negb (is_orderBy c)) rest
  | c :: rest => c :: without_later_orderBy rest
  end.

(** What a request carries, by kind of chained call, in call order. *)
Definition eq_conditions (q : Supabase.request) : list (string * JS.value) :=
  flat_map (fun s => match s with
                     | Supabase.eq c v => [(c, v)]
                     | _ => []
                     end) (Supabase.steps q).

Definition orderings (q : Supabase.request) : list (string * bool) :=
  flat_map (fun s => match s with
                     | Supabase.order c asc => [(c, asc)]
                     | _ => []
                     end) (Supabase.steps q).

Definition limits (q : Supabase.request) : list Z :=
  flat_map (fun s => match s with
                     | Supabase.limit n => [n]
                     | _ => []
                     end) (Supabase.steps q).

Definition ranges (q : Supabase.request) : list (Z * Z) :=
  flat_map (fun s => match s with
                     | Supabase.range a b => [(a, b)]
                     | _ => []
                     end) (Supabase.steps q).

(** The chain [_runSelect] has built when it reaches its [await]. *)
Definition select_request (this : descriptor) (columns : JS.value)
  : Supabase.request :=
  let q0 := Supabase.from (_table this)
              (Supabase.select (JS.default_param columns (JS.Str "*"))) in
  let q1 := apply_wheres (_wheres this) q0 in
  let q2 := match _orders this with
            | o :: _ =>
                Supabase.chained q1
                  (Supabase.order (order_field o)
                     (JS.is_string (direction o) "asc"))
            | [] => q1
            end in
  let q3 := match _limit this with
            | Some l => Supabase.chained q2 (Supabase.limit l)
            | None => q2
            end in
  match _offset this with
  | Some o =>
      Supabase.chained q3
        (Supabase.range o (o + limit_or (_limit this) 1000 - 1))
  | None => q3
  end.

(** Its optional parts. *)
Definition order_steps (this : descriptor) : list Supabase.step :=
  match _orders this with
  | o :: _ =>
      [Supabase.order (order_field o) (JS.is_string (direction o) "asc")]
  | [] => []
  end.

Definition limit_steps (this : descriptor) : list Supabase.step :=
  match _limit this with
  | Some l => [Supabase.limit l]
  | None => []
  end.

Definition range_steps (this : descriptor) : list Supabase.step :=
  match _offset this with
  | Some o => [Supabase.range o (o + limit_or (_limit this) 1000 - 1)]
  | None => []
  end.

(** The chains the write paths have built at their [await]. *)
Definition insert_request (this : descriptor) : Supabase.request :=
  Supabase.chained
    (Supabase.from (_table this) (Supabase.insert (_inserts this)))
    Supabase.returning.

Definition update_request (this : descriptor) : Supabase.request :=
  apply_wheres (_wheres this)
    (Supabase.from (_table this) (Supabase.update (_updates this))).

Definition delete_request (this : descriptor) : Supabase.request :=
  apply_wheres (_wheres this) (Supabase.from (_table this) Supabase.delete).

(** The chain the schema probe awaits. *)
Definition probe_request (tableName : string) : Supabase.request :=
  Supabase.chained
    (Supabase.from tableName (Supabase.select (JS.Str "count")))
    (Supabase.limit 1).

(** The two canned results of [db.raw]. *)
Definition select_1_result : JS.value :=
  JS.Arr [JS.Obj [("1", JS.Num 1)]].

Definition unsupported_placeholder : JS.value :=
  JS.Arr [JS.Obj [("message",
    JS.Str "Raw SQL queries are not directly supported with Supabase")]].

(** A store for concrete runs: it answers every request with [r]. *)
Definition answering (r : Supabase.reply)
  : Supabase.request -> unit -> Supabase.reply * unit :=
  fun _ s => (r, s).

Definition quiet : @world unit := mkWorld tt [] [].

(** A store that finds nothing and reports no error. *)
Definition no_rows : Supabase.request -> unit -> Supabase.reply * unit :=
  answering (Supabase.Settled (JS.Arr []) JS.Null).

(** A store holding two users. *)
Definition two_users : Supabase.request -> unit -> Supabase.reply * unit :=
  answering
    (Supabase.Settled
       (JS.Arr [JS.Obj [("id", JS.Num 1); ("name", JS.Str "ada")];
                JS.Obj [("id", JS.Num 2); ("name", JS.Str "bob")]])
       JS.Null).

(** A store that refuses every request. *)
Definition denied : JS.value :=
  JS.Obj [("code", JS.Str "42501"); ("message", JS.Str "permission denied")].

Definition refusing : Supabase.request -> unit -> Supabase.reply * unit :=
  answering (Supabase.Settled JS.Null denied).

(** The request a terminal call awaits: [first] has overwritten the limit,
    [insert] and [update] have stored their payload. *)
Definition request_of (this : descriptor) (t : terminal) : Supabase.request :=
  match t with
  | reading (by_select columns) => select_request this columns
  | reading by_first => select_request (set_limit this (Some 1)) JS.Undefined
  | reading by_await => select_request this JS.Undefined
  | inserting data => insert_request (set_inserts this data)
  | updating data => update_request (set_updates this data)
  | deleting => delete_request this
  end.

Definition is_limit (c : chain_call) : bool :=
  match c with
  | call_limit _ => true
  | _ => false
  end.

Definition is_offset (c : chain_call) : bool :=
  match c with
  | call_offset _ => true
  | _ => false
  end.

(** The [eq] step a [where] call turns into. *)
Definition eq_step (p : string * JS.value) : Supabase.step :=
  Supabase.eq (fst p) (snd p).

(** The integers a double holds without gaps. *)
Definition exactly_representable (z : Z) : Prop :=
  - 2 ^ 53 <= z <= 2 ^ 53.

(** [(o + W) - 1] is computed without rounding: operands, sum and
    difference are all held exactly. *)
Definition range_end_exact (o W : Z) : Prop :=
  exactly_representable o
  /\ exactly_representable W
  /\ exactly_representable (o + W)
  /\ exactly_representable (o + W - 1).

(** The calls on [db] that stand in for what the store cannot do. *)
Inductive stand_in : Type :=
| creating (tableName : string)
| dropping (tableName : string)
| destroying
| listening (event : JS.value).

(** A store whose client throws on every request. *)
Definition fetch_failed : JS.exn := JS.Thrown (JS.Str "fetch failed").

Definition unreachable : Supabase.request -> unit -> Supabase.reply * unit :=
  answering (Supabase.Rejected fetch_failed).

(** A store that echoes a hole among the inserted rows. *)
Definition holed : Supabase.request -> unit -> Supabase.reply * unit :=
  answering
    (Supabase.Settled (JS.Arr [JS.Obj [("id", JS.Num 1)]; JS.Null]) JS.Null).

(** A store that counts the requests it has seen and answers with the
    count, as a one-row table, when it has already seen one. *)
Definition counting : Supabase.request -> nat -> Supabase.reply * nat :=
  fun _ n =>
    (Supabase.Settled
       (match n with
        | O => JS.Null
        | S _ => JS.Arr [JS.Obj [("id", JS.Num (Z.of_nat n))]]
        end) JS.Null,
     S n).

Definition is_first (t : terminal) : bool :=
  match t with
  | reading by_first => true
  | _ => false
  end.

Section Dispatch.

Context {store : Type}.
Variable remote : Supabase.request -> store -> Supabase.reply * store.

(** A read trigger applied to a descriptor. *)
Definition read (this : descriptor) (t : read_trigger)
  : descriptor * M JS.value :=
  match t with
  | by_select columns => select remote this columns
  | by_first => first remote this
  | by_await => await_descriptor remote this
  end.

(** Any terminal call applied to a descriptor. *)
Definition execute (this : descriptor) (t : terminal)
  : descriptor * M JS.value :=
  match t with
  | reading r => read this r
  | inserting data => insert remote this data
  | updating data => update remote this data
  | deleting => delete remote this
  end.

(** A stand-in call, its result dropped. *)
Definition stand (h : stand_in) : @M store unit :=
  match h with
  | creating tableName =>
      bind (createTable tableName tt) (fun _ => ret tt)
  | dropping tableName => bind (dropTable tableName) (fun _ => ret tt)
  | destroying => bind destroy (fun _ => ret tt)
  | listening event => bind (on event tt) (fun _ => ret tt)
  end.

(** The descriptor after a series of terminal calls made on it, one after
    the other. *)
Definition reused (this : descriptor) (ts : list terminal) : descriptor :=
  fold_left (fun this t => fst (execute this t)) ts this.

End Dispatch.

(** The requests sent by [db('users')] after the chained calls [cs] and the
    read trigger [t], on a store that finds nothing. *)
Definition sent (cs : list chain_call) (t : read_trigger)
  : list Supabase.request :=
  issued (snd (snd (read no_rows (chain (db "users") cs) t) quiet)).

(** * Properties *)

Local Open Scope list_scope.

Section Properties.

Context {store : Type}.
Variable remote : Supabase.request -> store -> Supabase.reply * store.

(** ** Requests as lists of steps *)

Lemma steps_chained (q : Supabase.request) (s : Supabase.step) :
  Supabase.steps (Supabase.chained q s) = Supabase.steps q ++ [s].
Proof. reflexivity. Qed.

Lemma steps_apply_wheres (ws : list where_entry) (q : Supabase.request) :
  Supabase.steps (apply_wheres ws q)
  = Supabase.steps q
    ++ map (fun w => Supabase.eq (field w) (value w)) ws.
Proof.
  revert q. induction ws as [|w ws IH]; intros q.
  - simpl. now rewrite app_nil_r.
  - cbn [apply_wheres fold_left map]. fold (apply_wheres ws).
    rewrite IH, steps_chained, <- app_assoc. reflexivity.
Qed.

(** The whole chain of a read, in call order. *)
Lemma steps_select_request (this : descriptor) (columns : JS.value) :
  Supabase.steps (select_request this columns)
  = map (fun w => Supabase.eq (field w) (value w)) (_wheres this)
    ++ order_steps this ++ limit_steps this ++ range_steps this.
Proof.
  unfold select_request, order_steps, limit_steps, range_steps.
  destruct (_offset this), (_limit this), (_orders this);
    rewrite ?steps_chained, steps_apply_wheres; cbn [Supabase.from Supabase.steps];
    rewrite <- ?app_assoc, ?app_nil_r; reflexivity.
Qed.

Lemma eq_conditions_of_wheres (ws : list where_entry) :
  flat_map (fun s => match s with
                     | Supabase.eq c v => [(c, v)]
                     | _ => []
                     end)
    (map (fun w => Supabase.eq (field w) (value w)) ws)
  = map (fun w => (field w, value w)) ws.
Proof.
  induction ws as [|w ws IH]; simpl; [reflexivity | now rewrite IH].
Qed.

Lemma eq_conditions_select_request (this : descriptor) (columns : JS.value) :
  eq_conditions (select_request this columns)
  = map (fun w => (field w, value w)) (_wheres this).
Proof.
  unfold eq_conditions. rewrite steps_select_request, !flat_map_app.
  rewrite eq_conditions_of_wheres.
  unfold order_steps, limit_steps, range_steps.
  destruct (_orders this), (_limit this), (_offset this); simpl;
    now rewrite app_nil_r.
Qed.

Lemma no_orderings_in_wheres (ws : list where_entry) :
  flat_map (fun s => match s with
                     | Supabase.order c asc => [(c, asc)]
                     | _ => []
                     end)
    (map (fun w => Supabase.eq (field w) (value w)) ws) = [].
Proof. induction ws; simpl; auto. Qed.

Lemma no_limits_in_wheres (ws : list where_entry) :
  flat_map (fun s => match s with
                     | Supabase.limit n => [n]
                     | _ => []
                     end)
    (map (fun w => Supabase.eq (field w) (value w)) ws) = [].
Proof. induction ws; simpl; auto. Qed.

Lemma no_ranges_in_wheres (ws : list where_entry) :
  flat_map (fun s => match s with
                     | Supabase.range a b => [(a, b)]
                     | _ => []
                     end)
    (map (fun w => Supabase.eq (field w) (value w)) ws) = [].
Proof. induction ws; simpl; auto. Qed.

Lemma orderings_select_request (this : descriptor) (columns : JS.value) :
  orderings (select_request this columns)
  = match _orders this with
    | o :: _ => [(order_field o, JS.is_string (direction o) "asc")]
    | [] => []
    end.
Proof.
  unfold orderings. rewrite steps_select_request, !flat_map_app.
  rewrite no_orderings_in_wheres.
  unfold order_steps, limit_steps, range_steps.
  destruct (_orders this), (_limit this), (_offset this); reflexivity.
Qed.

Lemma limits_select_request (this : descriptor) (columns : JS.value) :
  limits (select_request this columns)
  = match _limit this with
    | Some l => [l]
    | None => []
    end.
Proof.
  unfold limits. rewrite steps_select_request, !flat_map_app.
  rewrite no_limits_in_wheres.
  unfold order_steps, limit_steps, range_steps.
  destruct (_orders this), (_limit this), (_offset this); reflexivity.
Qed.

Lemma ranges_select_request (this : descriptor) (columns : JS.value) :
  ranges (select_request this columns)
  = match _offset this with
    | Some o => [(o, o + limit_or (_limit this) 1000 - 1)]
    | None => []
    end.
Proof.
  unfold ranges. rewrite steps_select_request, !flat_map_app.
  rewrite no_ranges_in_wheres.
  unfold order_steps, limit_steps, range_steps.
  destruct (_orders this), (_limit this), (_offset this); reflexivity.
Qed.

(** ** What a chain of calls leaves in the descriptor *)

Lemma chain_cons (this : descriptor) (c : chain_call) (cs : list chain_call) :
  chain this (c :: cs) = chain (call this c) cs.
Proof. reflexivity. Qed.

Lemma table_chain (cs : list chain_call) (this : descriptor) :
  _table (chain this cs) = _table this.
Proof.
  revert this. induction cs as [|c cs IH]; intros this; [reflexivity|].
  rewrite chain_cons, IH. now destruct c.
Qed.

Lemma wheres_chain (cs : list chain_call) (this : descriptor) :
  _wheres (chain this cs)
  = _wheres this ++ map (fun p => mkWhere (fst p) (snd p)) (where_calls cs).
Proof.
  revert this. induction cs as [|c cs IH]; intros this.
  - simpl. now rewrite app_nil_r.
  - rewrite chain_cons, IH. destruct c; simpl; try reflexivity.
    now rewrite <- app_assoc.
Qed.

Lemma orders_chain (cs : list chain_call) (this : descriptor) :
  _orders (chain this cs)
  = _orders this
    ++ map (fun p => mkOrder (fst p) (JS.default_param (snd p) (JS.Str "asc")))
         (orderBy_calls cs).
Proof.
  revert this. induction cs as [|c cs IH]; intros this.
  - simpl. now rewrite app_nil_r.
  - rewrite chain_cons, IH. destruct c; simpl; try reflexivity.
    now rewrite <- app_assoc.
Qed.

Lemma limit_chain (cs : list chain_call) (this : descriptor) :
  _limit (chain this cs) = last_limit cs (_limit this).
Proof.
  revert this. induction cs as [|c cs IH]; intros this; [reflexivity|].
  rewrite chain_cons, IH. now destruct c.
Qed.

Lemma offset_chain (cs : list chain_call) (this : descriptor) :
  _offset (chain this cs) = last_offset cs (_offset this).
Proof.
  revert this. induction cs as [|c cs IH]; intros this; [reflexivity|].
  rewrite chain_cons, IH. now destruct c.
Qed.

(** ** One round trip per execution *)

(** The world after [request] has been awaited in [w]. *)
Lemma await_run (q : Supabase.request) (w : world) :
  await remote q w
  = (match fst (remote q (remote_state w)) with
     | Supabase.Settled data error => Ok (data, error)
     | Supabase.Rejected e => Throw e
     end,
     mkWorld (snd (remote q (remote_state w))) (issued w ++ [q]) (console w)).
Proof.
  unfold await. destruct (remote q (remote_state w)) as [[data error|e] s];
    reflexivity.
Qed.

Lemma _runSelect_run (this : descriptor) (columns : JS.value) (w : world) :
  _runSelect remote this columns w
  = (match fst (remote (select_request this columns) (remote_state w)) with
     | Supabase.Settled data error =>
         if JS.truthy error then Throw (JS.Thrown error)
         else Ok (JS.or data (JS.Arr []))
     | Supabase.Rejected e => Throw e
     end,
     mkWorld (snd (remote (select_request this columns) (remote_state w)))
       (issued w ++ [select_request this columns]) (console w)).
Proof.
  unfold _runSelect. fold (select_request this columns).
  unfold bind. rewrite await_run.
  destruct (fst (remote (select_request this columns) (remote_state w)))
    as [data error|e]; [destruct (JS.truthy error)|]; reflexivity.
Qed.

Lemma _runInsert_run (this : descriptor) (w : world) :
  _runInsert remote this w
  = (match fst (remote (insert_request this) (remote_state w)) with
     | Supabase.Settled data error =>
         if JS.truthy error then Throw (JS.Thrown error)
         else match optional_map_id data with
              | Some ids => Ok (JS.or ids (JS.Arr []))
              | None => Throw JS.TypeError
              end
     | Supabase.Rejected e => Throw e
     end,
     mkWorld (snd (remote (insert_request this) (remote_state w)))
       (issued w ++ [insert_request this]) (console w)).
Proof.
  unfold _runInsert. fold (insert_request this).
  unfold bind. rewrite await_run.
  destruct (fst (remote (insert_request this) (remote_state w)))
    as [data error|e]; [destruct (JS.truthy error)|]; try reflexivity.
  destruct (optional_map_id data); reflexivity.
Qed.

Lemma _runUpdate_run (this : descriptor) (w : world) :
  _runUpdate remote this w
  = (match fst (remote (update_request this) (remote_state w)) with
     | Supabase.Settled data error =>
         if JS.truthy error then Throw (JS.Thrown error)
         else Ok (if JS.truthy data then JS.Num 1 else JS.Num 0)
     | Supabase.Rejected e => Throw e
     end,
     mkWorld (snd (remote (update_request this) (remote_state w)))
       (issued w ++ [update_request this]) (console w)).
Proof.
  unfold _runUpdate. fold (update_request this).
  unfold bind. rewrite await_run.
  destruct (fst (remote (update_request this) (remote_state w)))
    as [data error|e]; [destruct (JS.truthy error)|]; reflexivity.
Qed.

Lemma _runDelete_run (this : descriptor) (w : world) :
  _runDelete remote this w
  = (match fst (remote (delete_request this) (remote_state w)) with
     | Supabase.Settled data error =>
         if JS.truthy error then Throw (JS.Thrown error) else Ok (JS.Num 1)
     | Supabase.Rejected e => Throw e
     end,
     mkWorld (snd (remote (delete_request this) (remote_state w)))
       (issued w ++ [delete_request this]) (console w)).
Proof.
  unfold _runDelete. fold (delete_request this).
  unfold bind. rewrite await_run.
  destruct (fst (remote (delete_request this) (remote_state w)))
    as [data error|e]; [destruct (JS.truthy error)|]; reflexivity.
Qed.

(** [first] after its read: the first element or [null]. *)
Lemma first_run (this : descriptor) (w : world) :
  snd (first remote this) w
  = (match fst (remote (request_of this (reading by_first)) (remote_state w)) with
     | Supabase.Settled data error =>
         if JS.truthy error then Throw (JS.Thrown error)
         else match JS.index0 (JS.or data (JS.Arr [])) with
              | Some data0 => Ok (JS.or data0 JS.Null)
              | None => Throw JS.TypeError
              end
     | Supabase.Rejected e => Throw e
     end,
     mkWorld (snd (remote (request_of this (reading by_first)) (remote_state w)))
       (issued w ++ [request_of this (reading by_first)]) (console w)).
Proof.
  cbn [first snd request_of]. unfold bind at 1. rewrite _runSelect_run.
  destruct (fst (remote _ (remote_state w))) as [data error|e];
    [destruct (JS.truthy error)|]; try reflexivity.
  unfold bind. destruct (JS.index0 (JS.or data (JS.Arr []))); reflexivity.
Qed.

(** Awaiting the descriptor is [_runSelect] with the default columns. *)
Lemma await_descriptor_run (this : descriptor) (w : world) :
  snd (await_descriptor remote this) w = _runSelect remote this JS.Undefined w.
Proof.
  cbn [await_descriptor snd]. unfold then_, catch, bind.
  destruct (_runSelect remote this JS.Undefined w) as [[a|e] w']; reflexivity.
Qed.

(** Every terminal call awaits exactly one request, the one [request_of]
    names, and writes nothing to the console. *)
Lemma execute_world (this : descriptor) (t : terminal) (w : world) :
  snd (snd (execute remote this t) w)
  = mkWorld (snd (remote (request_of this t) (remote_state w)))
      (issued w ++ [request_of this t]) (console w).
Proof.
  destruct t as [[columns| |]|data|data|]; cbn [execute read].
  - cbn [select snd]. now rewrite _runSelect_run.
  - now rewrite first_run.
  - rewrite await_descriptor_run. now rewrite _runSelect_run.
  - cbn [insert snd]. now rewrite _runInsert_run.
  - cbn [update snd]. now rewrite _runUpdate_run.
  - cbn [delete snd]. now rewrite _runDelete_run.
Qed.

(** ** Reads depend on the descriptor through their request only *)

Lemma read_is_execute (this : descriptor) (t : read_trigger) :
  read remote this t = execute remote this (reading t).
Proof. reflexivity. Qed.

Lemma read_run_ext (d1 d2 : descriptor) (t : read_trigger) (w : world) :
  request_of d1 (reading t) = request_of d2 (reading t) ->
  snd (read remote d1 t) w = snd (read remote d2 t) w.
Proof.
  intros E. destruct t as [columns| |]; cbn [read].
  - cbn [select snd]. rewrite !_runSelect_run. cbn [request_of] in E.
    now rewrite E.
  - rewrite !first_run. now rewrite E.
  - rewrite !await_descriptor_run, !_runSelect_run. cbn [request_of] in E.
    now rewrite E.
Qed.

Lemma select_request_ext (d1 d2 : descriptor) (columns : JS.value) :
  _table d1 = _table d2 ->
  _wheres d1 = _wheres d2 ->
  hd_error (_orders d1) = hd_error (_orders d2) ->
  _limit d1 = _limit d2 ->
  _offset d1 = _offset d2 ->
  select_request d1 columns = select_request d2 columns.
Proof.
  intros Et Ew Eo El Ef. unfold select_request.
  rewrite Et, Ew, El, Ef.
  destruct (_orders d1) as [|o1 ?], (_orders d2) as [|o2 ?];
    simpl in Eo; try discriminate; [reflexivity|].
  injection Eo as ->. reflexivity.
Qed.

Lemma request_of_read_ext (d1 d2 : descriptor) (t : read_trigger) :
  _table d1 = _table d2 ->
  _wheres d1 = _wheres d2 ->
  hd_error (_orders d1) = hd_error (_orders d2) ->
  _limit d1 = _limit d2 ->
  _offset d1 = _offset d2 ->
  request_of d1 (reading t) = request_of d2 (reading t).
Proof.
  intros Et Ew Eo El Ef.
  destruct t; cbn [request_of]; apply select_request_ext; auto.
Qed.

(** ** Chains with the later [orderBy] calls taken out *)

Lemma where_calls_filter (cs : list chain_call) :
  where_calls (filter (fun c => negb (is_orderBy c)) cs) = where_calls cs.
Proof.
  induction cs as [|c cs IH]; [reflexivity|].
  destruct c; simpl; rewrite ?IH; reflexivity.
Qed.

Lemma last_limit_filter (cs : list chain_call) (l : option Z) :
  last_limit (filter (fun c => negb (is_orderBy c)) cs) l = last_limit cs l.
Proof.
  revert l. induction cs as [|c cs IH]; intros l; [reflexivity|].
  destruct c; simpl; rewrite ?IH; reflexivity.
Qed.

Lemma last_offset_filter (cs : list chain_call) (o : option Z) :
  last_offset (filter (fun c => negb (is_orderBy c)) cs) o = last_offset cs o.
Proof.
  revert o. induction cs as [|c cs IH]; intros o; [reflexivity|].
  destruct c; simpl; rewrite ?IH; reflexivity.
Qed.

Lemma orderBy_calls_filter (cs : list chain_call) :
  orderBy_calls (filter (fun c => negb (is_orderBy c)) cs) = [].
Proof.
  induction cs as [|c cs IH]; [reflexivity|].
  destruct c; simpl; rewrite ?IH; reflexivity.
Qed.

Lemma where_calls_without_later (cs : list chain_call) :
  where_calls (without_later_orderBy cs) = where_calls cs.
Proof.
  induction cs as [|c cs IH]; [reflexivity|].
  destruct c; simpl; rewrite ?IH, ?where_calls_filter; reflexivity.
Qed.

Lemma last_limit_without_later (cs : list chain_call) (l : option Z) :
  last_limit (without_later_orderBy cs) l = last_limit cs l.
Proof.
  revert l. induction cs as [|c cs IH]; intros l; [reflexivity|].
  destruct c; simpl; rewrite ?IH, ?last_limit_filter; reflexivity.
Qed.

Lemma last_offset_without_later (cs : list chain_call) (o : option Z) :
  last_offset (without_later_orderBy cs) o = last_offset cs o.
Proof.
  revert o. induction cs as [|c cs IH]; intros o; [reflexivity|].
  destruct c; simpl; rewrite ?IH, ?last_offset_filter; reflexivity.
Qed.

Lemma orderBy_calls_without_later (cs : list chain_call) :
  orderBy_calls (without_later_orderBy cs) = firstn 1 (orderBy_calls cs).
Proof.
  induction cs as [|c cs IH]; [reflexivity|].
  destruct c; simpl; rewrite ?IH, ?orderBy_calls_filter; reflexivity.
Qed.

Lemma hd_error_map_firstn {A B} (g : A -> B) (l : list A) :
  hd_error (map g (firstn 1 l)) = hd_error (map g l).
Proof. destruct l; reflexivity. Qed.

Lemma map_entry_pairs (l : list (string * JS.value)) :
  map (fun w => (field w, value w)) (map (fun p => mkWhere (fst p) (snd p)) l)
  = l.
Proof.
  induction l as [|[f v] l IH]; simpl; [reflexivity | now rewrite IH].
Qed.

Lemma ascending_iff (dir : JS.value) :
  JS.is_string (JS.default_param dir (JS.Str "asc")) "asc" = true
  <-> dir = JS.Str "asc" \/ dir = JS.Undefined.
Proof.
  destruct dir; simpl; split; intros H;
    try discriminate; try (destruct H; discriminate); auto.
  - apply String.eqb_eq in H. left. now subst.
  - destruct H as [H|H]; [|discriminate]. injection H as ->.
    reflexivity.
Qed.

(** The sort of a read's request: the first recorded directive. *)
Lemma read_orderings
    (tableName : string) (cs : list chain_call) (t : read_trigger) (w : world) :
  exists q,
    issued (snd (snd (read remote (chain (db tableName) cs) t) w))
    = issued w ++ [q]
    /\ orderings q
       = match orderBy_calls cs with
         | [] => []
         | (f, d) :: _ =>
             [(f, JS.is_string (JS.default_param d (JS.Str "asc")) "asc")]
         end.
Proof.
  exists (request_of (chain (db tableName) cs) (reading t)).
  rewrite read_is_execute, execute_world. cbn [issued]. split; [reflexivity|].
  destruct t; cbn [request_of]; rewrite orderings_select_request;
    cbn [set_limit _orders]; rewrite orders_chain;
    cbn [db createQueryBuilder _orders app];
    destruct (orderBy_calls cs) as [|[f d] rest]; reflexivity.
Qed.

(** ** The claims on reads *)

(** C1. Whatever chain of calls is made on a fresh descriptor, and
    whichever read trigger ends it ([select], [first] or awaiting the
    descriptor), exactly one request is sent, and its equality conditions
    are the arguments of the [where] calls: one per call, in call order,
    all chained on that one request, which is how the store conjoins
    them. *)
Theorem C1_where_conditions_in_call_order
    (tableName : string) (cs : list chain_call) (t : read_trigger) (w : world) :
  exists q,
    issued (snd (snd (read remote (chain (db tableName) cs) t) w))
    = issued w ++ [q]
    /\ eq_conditions q = where_calls cs
    /\ List.length (eq_conditions q) = List.length (where_calls cs).
Proof.
  exists (request_of (chain (db tableName) cs) (reading t)).
  rewrite read_is_execute, execute_world. cbn [issued].
  assert (E : eq_conditions (request_of (chain (db tableName) cs) (reading t))
              = where_calls cs).
  { destruct t; cbn [request_of]; rewrite eq_conditions_select_request;
      cbn [set_limit _wheres]; rewrite wheres_chain; cbn [db createQueryBuilder _wheres app];
      apply map_entry_pairs. }
  rewrite E. auto.
Qed.

(** C5. Every [orderBy] call of the chain is recorded in the descriptor,
    in call order; the request a read sends carries the first one only;
    and taking all later [orderBy] calls out of the chain changes nothing
    of the read: same result, same request, same store. *)
Theorem C5_only_first_orderBy_applied
    (tableName : string) (cs : list chain_call) (t : read_trigger) (w : world) :
  _orders (chain (db tableName) cs)
  = map (fun p => mkOrder (fst p) (JS.default_param (snd p) (JS.Str "asc")))
      (orderBy_calls cs)
  /\ (exists q,
        issued (snd (snd (read remote (chain (db tableName) cs) t) w))
        = issued w ++ [q]
        /\ orderings q
           = match orderBy_calls cs with
             | [] => []
             | (f, d) :: _ =>
                 [(f, JS.is_string (JS.default_param d (JS.Str "asc")) "asc")]
             end)
  /\ snd (read remote (chain (db tableName) cs) t) w
     = snd (read remote (chain (db tableName) (without_later_orderBy cs)) t) w.
Proof.
  split; [|split].
  - now rewrite orders_chain.
  - apply read_orderings.
  - apply read_run_ext, request_of_read_ext.
    + now rewrite !table_chain.
    + now rewrite !wheres_chain, where_calls_without_later.
    + rewrite !orders_chain, orderBy_calls_without_later.
      cbn [db createQueryBuilder _orders app].
      symmetry. apply hd_error_map_firstn.
    + now rewrite !limit_chain, last_limit_without_later.
    + now rewrite !offset_chain, last_offset_without_later.
Qed.

(** C10. When the first [orderBy] call of the chain is [orderBy(f, dir)],
    the read's request sorts on [f], and ascending exactly when [dir] is
    the string ['asc'] or was left out ([undefined]); every other
    direction, ['ascending'] and ['ASC'] among them, sorts descending. *)
Theorem C10_ascending_iff_direction_is_asc
    (tableName : string) (cs : list chain_call) (t : read_trigger) (w : world)
    (f : string) (dir : JS.value) (later : list (string * JS.value)) :
  orderBy_calls cs = (f, dir) :: later ->
  exists q ascending,
    issued (snd (snd (read remote (chain (db tableName) cs) t) w))
    = issued w ++ [q]
    /\ orderings q = [(f, ascending)]
    /\ (ascending = true <-> dir = JS.Str "asc" \/ dir = JS.Undefined)
    /\ (dir = JS.Str "ascending" \/ dir = JS.Str "ASC" -> ascending = false).
Proof.
  intros Hfirst.
  destruct (read_orderings tableName cs t w) as (q & Hq & Ho).
  rewrite Hfirst in Ho.
  exists q, (JS.is_string (JS.default_param dir (JS.Str "asc")) "asc").
  repeat split; auto; try apply ascending_iff.
  intros [-> | ->]; reflexivity.
Qed.

(** The window of a read's request, whatever the trigger: the limit in
    force is the chain's last one, or 1 under [first].  The end of the
    range is the exact integer. *)
Lemma read_limits_ranges
    (tableName : string) (cs : list chain_call) (t : read_trigger) (w : world) :
  let l := match t with
           | by_first => Some 1
           | _ => last_limit cs None
           end in
  exists q,
    issued (snd (snd (read remote (chain (db tableName) cs) t) w))
    = issued w ++ [q]
    /\ limits q = match l with Some n => [n] | None => [] end
    /\ ranges q = match last_offset cs None with
                  | Some o => [(o, o + limit_or l 1000 - 1)]
                  | None => []
                  end.
Proof.
  exists (request_of (chain (db tableName) cs) (reading t)).
  rewrite read_is_execute, execute_world. cbn [issued]. split; [reflexivity|].
  destruct t; cbn [request_of];
    rewrite limits_select_request, ranges_select_request;
    cbn [set_limit _limit _offset]; rewrite ?limit_chain, offset_chain;
    cbn [db createQueryBuilder _limit _offset]; split; reflexivity.
Qed.

(** With a limit in force that is not 0, the window is the limit, as
    long as the end of the range is computed without rounding. *)
Lemma read_range_nonzero_limit
    (tableName : string) (cs : list chain_call) (columns : JS.value)
    (w : world) (n l : Z) :
  last_offset cs None = Some n ->
  last_limit cs None = Some l ->
  l <> 0 ->
  range_end_exact n l ->
  exists q,
    issued (snd (snd (read remote (chain (db tableName) cs) (by_select columns)) w))
    = issued w ++ [q]
    /\ ranges q = [(n, n + l - 1)].
Proof.
  intros Ho Hl Hnz _.
  destruct (read_limits_ranges tableName cs (by_select columns) w)
    as (q & Hq & _ & Hr).
  exists q. split; [exact Hq|].
  rewrite Hr, Ho, Hl. unfold limit_or.
  destruct (Z.eqb_spec l 0); [contradiction | reflexivity].
Qed.

(** C9, as amended. When the chain leaves limit 0 and an offset [n] with
    [-2^53 <= n] and [n + 1000 <= 2^53], so that the end of the range is
    computed without rounding, a read through [select] or through awaiting
    the descriptor calls the store's limit with 0 and asks for the range
    [n, n + 999]: the 0 counts as no limit for the end of the range.
    Under [first] the limit has been replaced by 1: the store's limit is
    called with 1 and the range is [n, n]. *)
Theorem C9_limit_zero_keeps_default_window
    (tableName : string) (cs : list chain_call) (t : read_trigger) (w : world)
    (n : Z) :
  last_limit cs None = Some 0 ->
  last_offset cs None = Some n ->
  - 2 ^ 53 <= n ->
  n + 1000 <= 2 ^ 53 ->
  exists q,
    issued (snd (snd (read remote (chain (db tableName) cs) t) w))
    = issued w ++ [q]
    /\ (t <> by_first -> limits q = [0] /\ ranges q = [(n, n + 999)])
    /\ (t = by_first -> limits q = [1] /\ ranges q = [(n, n)]).
Proof.
  intros Hl Ho _ _.
  destruct (read_limits_ranges tableName cs t w) as (q & Hq & Hlim & Hr).
  exists q. split; [exact Hq|].
  rewrite Ho in Hr. split.
  - intros Ht. destruct t; try contradiction; rewrite Hl in Hlim, Hr;
      split; auto; rewrite Hr; cbn [limit_or Z.eqb]; do 2 f_equal; lia.
  - intros ->. split; auto. rewrite Hr. cbn [limit_or Z.eqb].
    do 2 f_equal. lia.
Qed.

(** C3. [first] leaves the descriptor with limit 1 and sends one read
    request, which calls the store's limit with 1.  When that read
    succeeds: with at least one row in the data the result is the first
    row (a row is an object, hence truthy); with no rows -- an empty
    array, or no data at all -- the result is [null], neither a throw nor
    an empty array. *)
Theorem C3_first_row_or_null
    (this : descriptor) (w : world) (data error : JS.value) :
  fst (remote (request_of this (reading by_first)) (remote_state w))
  = Supabase.Settled data error ->
  JS.truthy error = false ->
  _limit (fst (first remote this)) = Some 1
  /\ issued (snd (snd (first remote this) w))
     = issued w ++ [request_of this (reading by_first)]
  /\ limits (request_of this (reading by_first)) = [1]
  /\ (forall row rows,
        data = JS.Arr (row :: rows) -> JS.truthy row = true ->
        fst (snd (first remote this) w) = Ok row)
  /\ (data = JS.Arr [] \/ data = JS.Null \/ data = JS.Undefined ->
      fst (snd (first remote this) w) = Ok JS.Null).
Proof.
  intros Hr He. rewrite first_run, Hr, He. cbn [fst snd issued].
  repeat split.
  - cbn [request_of]. now rewrite limits_select_request.
  - intros row rows -> Hrow. cbn. unfold JS.or. now rewrite Hrow.
  - intros [-> | [-> | ->]]; reflexivity.
Qed.

(** ** The claims on writes and errors *)

(** C4. When the store reports no error, [update] returns 1 if the
    reply's data is truthy and 0 otherwise.  It is no count of rows: any
    array of rows, of whatever length, the empty one included, gives 1;
    [null] or missing data gives 0. *)
Theorem C4_update_returns_one_or_zero
    (this : descriptor) (payload : JS.value) (w : world)
    (data error : JS.value) :
  fst (remote (request_of this (updating payload)) (remote_state w))
  = Supabase.Settled data error ->
  JS.truthy error = false ->
  fst (snd (update remote this payload) w)
  = Ok (if JS.truthy data then JS.Num 1 else JS.Num 0)
  /\ (forall rows, data = JS.Arr rows ->
      fst (snd (update remote this payload) w) = Ok (JS.Num 1))
  /\ (data = JS.Null \/ data = JS.Undefined ->
      fst (snd (update remote this payload) w) = Ok (JS.Num 0)).
Proof.
  intros Hr He. cbn [update snd]. rewrite _runUpdate_run.
  cbn [request_of] in Hr. rewrite Hr, He. cbn [fst].
  repeat split.
  - now intros rows ->.
  - now intros [-> | ->].
Qed.

(** C8. Whatever the terminal call ([select], [first], awaiting the
    descriptor, [insert], [update], [delete]): when the store's reply
    carries an error (any truthy [error], an error object in particular),
    the call throws that very value, after that one request and nothing
    else: no second request, nothing logged. *)
Theorem C8_remote_error_thrown_unchanged
    (this : descriptor) (t : terminal) (w : world) (data error : JS.value) :
  fst (remote (request_of this t) (remote_state w))
  = Supabase.Settled data error ->
  JS.truthy error = true ->
  snd (execute remote this t) w
  = (Throw (JS.Thrown error),
     mkWorld (snd (remote (request_of this t) (remote_state w)))
       (issued w ++ [request_of this t]) (console w)).
Proof.
  intros Hr He.
  destruct t as [[columns| |]|payload|payload|]; cbn [execute read].
  - cbn [select snd]. rewrite _runSelect_run.
    cbn [request_of] in *. now rewrite Hr, He.
  - rewrite first_run. now rewrite Hr, He.
  - rewrite await_descriptor_run, _runSelect_run.
    cbn [request_of] in *. now rewrite Hr, He.
  - cbn [insert snd]. rewrite _runInsert_run.
    cbn [request_of] in *. now rewrite Hr, He.
  - cbn [update snd]. rewrite _runUpdate_run.
    cbn [request_of] in *. now rewrite Hr, He.
  - cbn [delete snd]. rewrite _runDelete_run.
    cbn [request_of] in *. now rewrite Hr, He.
Qed.

(** ** The raw-query escape hatch and the schema probe *)

Lemma hasTable_run (tableName : string) (w : world) :
  hasTable remote tableName w
  = (Ok (JS.Bool
           match fst (remote (probe_request tableName) (remote_state w)) with
           | Supabase.Settled _ error => negb (JS.truthy error)
           | Supabase.Rejected _ => false
           end),
     mkWorld (snd (remote (probe_request tableName) (remote_state w)))
       (issued w ++ [probe_request tableName]) (console w)).
Proof.
  unfold hasTable, catch, bind. fold (probe_request tableName).
  rewrite await_run.
  destruct (fst (remote (probe_request tableName) (remote_state w)));
    reflexivity.
Qed.

(** C6. [db.raw('SELECT 1')] returns the one-row result [[{ '1': 1 }]] and
    touches nothing.  For any other string it returns the placeholder
    saying raw SQL is not supported, sends no request and leaves the store
    as it was: it only logs the string. *)
Theorem C6_raw_select_1_only (sql : string) (w : @world store) :
  db_raw "SELECT 1" w = (Ok select_1_result, w)
  /\ (sql <> "SELECT 1" ->
      fst (db_raw sql w) = Ok unsupported_placeholder
      /\ issued (snd (db_raw sql w)) = issued w
      /\ remote_state (snd (db_raw sql w)) = remote_state w
      /\ console (snd (db_raw sql w))
         = console w
           ++ [("[SUPABASE SHIM] Raw SQL not directly supported: " ++ sql)%string]).
Proof.
  split; [reflexivity|].
  intros Hne. unfold db_raw.
  destruct (String.eqb_spec sql "SELECT 1") as [E|_]; [contradiction|].
  repeat split.
Qed.

(** C7. [hasTable] never throws and sends its one count-select.  It
    answers [true] exactly when that request came back with no error;
    an error in the reply (a permission error, say) and a thrown one (a
    network failure, say) both give [false]. *)
Theorem C7_hasTable_true_iff_no_error (tableName : string) (w : world) :
  (exists b, fst (hasTable remote tableName w) = Ok (JS.Bool b))
  /\ issued (snd (hasTable remote tableName w))
     = issued w ++ [probe_request tableName]
  /\ (fst (hasTable remote tableName w) = Ok (JS.Bool true)
      <-> exists data error,
            fst (remote (probe_request tableName) (remote_state w))
            = Supabase.Settled data error
            /\ JS.truthy error = false)
  /\ (forall data error,
        fst (remote (probe_request tableName) (remote_state w))
        = Supabase.Settled data error ->
        JS.truthy error = true ->
        fst (hasTable remote tableName w) = Ok (JS.Bool false))
  /\ (forall e,
        fst (remote (probe_request tableName) (remote_state w))
        = Supabase.Rejected e ->
        fst (hasTable remote tableName w) = Ok (JS.Bool false)).
Proof.
  rewrite hasTable_run. cbn [fst snd issued].
  split; [eauto|]. split; [reflexivity|]. split; [|split].
  - destruct (fst (remote (probe_request tableName) (remote_state w)))
      as [data error|e]; split.
    + intros H. exists data, error. split; [reflexivity|].
      injection H as H. now destruct (JS.truthy error).
    + intros (d & e & H & He). injection H as -> ->. now rewrite He.
    + discriminate.
    + intros (d & e' & H & _). discriminate.
  - intros data error -> He. now rewrite He.
  - now intros e ->.
Qed.

End Properties.

(** * Concrete runs *)

Example where_then_select :
  sent [call_where "team" (JS.Str "a"); call_limit 5;
        call_where "active" (JS.Bool true); call_limit 10]
       (by_select JS.Undefined)
  = [Supabase.mkRequest "users" (Supabase.select (JS.Str "*"))
       [Supabase.eq "team" (JS.Str "a");
        Supabase.eq "active" (JS.Bool true);
        Supabase.limit 10]].
Proof. reflexivity. Qed.

Example two_orderBy_then_await :
  sent [call_orderBy "name" (JS.Str "desc"); call_orderBy "age" JS.Undefined]
       by_await
  = [Supabase.mkRequest "users" (Supabase.select (JS.Str "*"))
       [Supabase.order "name" false]].
Proof. reflexivity. Qed.

(** C2. [offset(20)] with no limit asks for the range [20, 1019], as the
    claim says.  But [limit(0).offset(5).select()] has a limit set, 0,
    and asks for [5, 1004]: the window is the default 1000 and not the
    limit, for which the range would end at [5 + 0 - 1]. *)
Theorem C2_limit_zero_asks_default_window :
  sent [call_offset 20] (by_select JS.Undefined)
  = [Supabase.mkRequest "users" (Supabase.select (JS.Str "*"))
       [Supabase.range 20 1019]]
  /\ sent [call_limit 0; call_offset 5] (by_select JS.Undefined)
     = [Supabase.mkRequest "users" (Supabase.select (JS.Str "*"))
          [Supabase.limit 0; Supabase.range 5 1004]]
  /\ sent [call_limit 0; call_offset 5] (by_select JS.Undefined)
     <> [Supabase.mkRequest "users" (Supabase.select (JS.Str "*"))
           [Supabase.limit 0; Supabase.range 5 (5 + 0 - 1)]].
Proof.
  split; [reflexivity|]. split; [reflexivity|]. discriminate.
Qed.

(** C9 as first stated fails under [first]: [limit(0).offset(3).first()]
    calls the store's limit with 1, not 0, and asks for the range [3, 3],
    not [3, 1002]. *)
Lemma C9_first_replaces_limit_zero :
  last_limit [call_limit 0; call_offset 3] None = Some 0
  /\ last_offset [call_limit 0; call_offset 3] None = Some 3
  /\ sent [call_limit 0; call_offset 3] by_first
     = [Supabase.mkRequest "users" (Supabase.select (JS.Str "*"))
          [Supabase.limit 1; Supabase.range 3 3]]
  /\ ~ (exists q,
          sent [call_limit 0; call_offset 3] by_first = [q]
          /\ limits q = [0] /\ ranges q = [(3, 3 + 999)]).
Proof.
  repeat split. intros (q & Hq & Hl & _).
  injection Hq as <-. discriminate Hl.
Qed.

Lemma C9_witness :
  last_limit [call_limit 0; call_offset 3] None = Some 0
  /\ last_offset [call_limit 0; call_offset 3] None = Some 3
  /\ - 2 ^ 53 <= 3
  /\ 3 + 1000 <= 2 ^ 53
  /\ exists q,
       issued (snd (snd (read no_rows
                           (chain (db "users") [call_limit 0; call_offset 3])
                           by_await) quiet))
       = issued quiet ++ [q]
       /\ (by_await <> by_first -> limits q = [0] /\ ranges q = [(3, 3 + 999)])
       /\ (by_await = by_first -> limits q = [1] /\ ranges q = [(3, 3)]).
Proof.
  split; [reflexivity|]. split; [reflexivity|].
  split; [discriminate|]. split; [discriminate|].
  apply (C9_limit_zero_keeps_default_window no_rows "users"
           [call_limit 0; call_offset 3] by_await quiet 3);
    [reflexivity | reflexivity | discriminate | discriminate].
Defined.

Lemma C10_witness :
  orderBy_calls [call_where "id" (JS.Num 7);
                 call_orderBy "name" (JS.Str "ASC");
                 call_orderBy "age" JS.Undefined]
  = [("name", JS.Str "ASC"); ("age", JS.Undefined)]
  /\ exists q ascending,
       issued (snd (snd (read no_rows
                           (chain (db "users")
                              [call_where "id" (JS.Num 7);
                               call_orderBy "name" (JS.Str "ASC");
                               call_orderBy "age" JS.Undefined])
                           (by_select JS.Undefined)) quiet))
       = issued quiet ++ [q]
       /\ orderings q = [("name", ascending)]
       /\ (ascending = true
           <-> JS.Str "ASC" = JS.Str "asc" \/ JS.Str "ASC" = JS.Undefined)
       /\ (JS.Str "ASC" = JS.Str "ascending" \/ JS.Str "ASC" = JS.Str "ASC" ->
           ascending = false).
Proof.
  split; [reflexivity|].
  apply (C10_ascending_iff_direction_is_asc no_rows "users" _
           (by_select JS.Undefined) quiet "name" (JS.Str "ASC")
           [("age", JS.Undefined)]).
  reflexivity.
Defined.

Lemma C3_witness :
  fst (two_users (request_of (db "users") (reading by_first)) (remote_state quiet))
  = Supabase.Settled
      (JS.Arr [JS.Obj [("id", JS.Num 1); ("name", JS.Str "ada")];
               JS.Obj [("id", JS.Num 2); ("name", JS.Str "bob")]])
      JS.Null
  /\ JS.truthy JS.Null = false
  /\ fst (snd (first two_users (db "users")) quiet)
     = Ok (JS.Obj [("id", JS.Num 1); ("name", JS.Str "ada")]).
Proof.
  split; [reflexivity|]. split; [reflexivity|].
  refine (proj1 (proj2 (proj2 (proj2
            (C3_first_row_or_null two_users (db "users") quiet _ JS.Null
               eq_refl eq_refl)))) _ _ eq_refl eq_refl).
Defined.

Lemma C4_witness :
  fst (two_users (request_of (db "users") (updating (JS.Obj [("name", JS.Str "eve")])))
         (remote_state quiet))
  = Supabase.Settled
      (JS.Arr [JS.Obj [("id", JS.Num 1); ("name", JS.Str "ada")];
               JS.Obj [("id", JS.Num 2); ("name", JS.Str "bob")]])
      JS.Null
  /\ JS.truthy JS.Null = false
  /\ fst (snd (update two_users (db "users") (JS.Obj [("name", JS.Str "eve")]))
            quiet)
     = Ok (JS.Num 1).
Proof.
  split; [reflexivity|]. split; [reflexivity|].
  exact (proj1 (C4_update_returns_one_or_zero two_users (db "users")
                  (JS.Obj [("name", JS.Str "eve")]) quiet _ JS.Null
                  eq_refl eq_refl)).
Defined.

Lemma C8_witness :
  fst (refusing (request_of (where_ (db "users") "id" (JS.Num 7)) deleting)
         (remote_state quiet))
  = Supabase.Settled JS.Null denied
  /\ JS.truthy denied = true
  /\ snd (execute refusing (where_ (db "users") "id" (JS.Num 7)) deleting) quiet
     = (Throw (JS.Thrown denied),
        mkWorld tt
          [Supabase.mkRequest "users" Supabase.delete
             [Supabase.eq "id" (JS.Num 7)]]
          []).
Proof.
  split; [reflexivity|]. split; [reflexivity|].
  exact (C8_remote_error_thrown_unchanged refusing
           (where_ (db "users") "id" (JS.Num 7)) deleting quiet JS.Null denied
           eq_refl eq_refl).
Defined.

Lemma C6_witness :
  "SELECT 2" <> "SELECT 1"
  /\ fst (db_raw "SELECT 2" quiet) = Ok unsupported_placeholder
  /\ issued (snd (db_raw "SELECT 2" quiet)) = issued quiet.
Proof.
  split; [discriminate|].
  destruct (proj2 (C6_raw_select_1_only "SELECT 2" quiet)) as (Hv & Hi & _).
  - discriminate.
  - split; assumption.
Defined.

Lemma C7_witness :
  fst (refusing (probe_request "users") (remote_state quiet))
  = Supabase.Settled JS.Null denied
  /\ JS.truthy denied = true
  /\ fst (hasTable refusing "users" quiet) = Ok (JS.Bool false).
Proof.
  split; [reflexivity|]. split; [reflexivity|].
  exact (proj1 (proj2 (proj2 (proj2
           (C7_hasTable_true_iff_no_error refusing "users" quiet))))
           JS.Null denied eq_refl eq_refl).
Defined.

(** * Further properties of the shim *)

Section Further.

Context {store : Type}.
Variable remote : Supabase.request -> store -> Supabase.reply * store.

(** ** The shape of the requests *)

Lemma apply_wheres_shape (ws : list where_entry) (q : Supabase.request) :
  apply_wheres ws q
  = Supabase.mkRequest (Supabase.table q) (Supabase.action q)
      (Supabase.steps q
       ++ map (fun w => Supabase.eq (field w) (value w)) ws).
Proof.
  revert q. induction ws as [|w ws IH]; intros q.
  - simpl. rewrite app_nil_r. now destruct q.
  - cbn [apply_wheres fold_left map]. fold (apply_wheres ws).
    rewrite IH. unfold Supabase.chained. cbn [Supabase.table Supabase.action Supabase.steps].
    now rewrite <- app_assoc.
Qed.

Lemma table_select_request (this : descriptor) (columns : JS.value) :
  Supabase.table (select_request this columns) = _table this.
Proof.
  unfold select_request.
  destruct (_offset this), (_limit this), (_orders this);
    cbn [Supabase.chained Supabase.table]; now rewrite apply_wheres_shape.
Qed.

Lemma action_select_request (this : descriptor) (columns : JS.value) :
  Supabase.action (select_request this columns)
  = Supabase.select (JS.default_param columns (JS.Str "*")).
Proof.
  unfold select_request.
  destruct (_offset this), (_limit this), (_orders this);
    cbn [Supabase.chained Supabase.action]; now rewrite apply_wheres_shape.
Qed.

Lemma request_eta (q : Supabase.request) :
  q = Supabase.mkRequest (Supabase.table q) (Supabase.action q) (Supabase.steps q).
Proof. now destruct q. Qed.

Lemma map_where_steps (l : list (string * JS.value)) :
  map (fun w => Supabase.eq (field w) (value w))
    (map (fun p => mkWhere (fst p) (snd p)) l)
  = map eq_step l.
Proof. now rewrite map_map. Qed.

Lemma last_limit_app (cs cs' : list chain_call) (l : option Z) :
  last_limit (cs ++ cs') l = last_limit cs' (last_limit cs l).
Proof.
  revert l. induction cs as [|c cs IH]; intros l; [reflexivity|].
  destruct c; simpl; apply IH.
Qed.

Lemma last_offset_app (cs cs' : list chain_call) (o : option Z) :
  last_offset (cs ++ cs') o = last_offset cs' (last_offset cs o).
Proof.
  revert o. induction cs as [|c cs IH]; intros o; [reflexivity|].
  destruct c; simpl; apply IH.
Qed.

Lemma last_limit_none_later (cs : list chain_call) (l : option Z) :
  forallb (fun c => negb (is_limit c)) cs = true -> last_limit cs l = l.
Proof.
  revert l. induction cs as [|c cs IH]; intros l H; [reflexivity|].
  simpl in H. apply andb_prop in H as [Hc H].
  destruct c; simpl; try discriminate; now apply IH.
Qed.

Lemma last_offset_none_later (cs : list chain_call) (o : option Z) :
  forallb (fun c => negb (is_offset c)) cs = true -> last_offset cs o = o.
Proof.
  revert o. induction cs as [|c cs IH]; intros o H; [reflexivity|].
  simpl in H. apply andb_prop in H as [Hc H].
  destruct c; simpl; try discriminate; now apply IH.
Qed.

(** The request of a read, in full: whatever the order of the calls, the
    [where] filters come first and in call order, then the sort of the
    first [orderBy], then the limit in force, then the range of the offset
    in force.  The range spans [W] rows: 1 under [first], else the limit
    in force when there is one and it is not 0, else 1000; its end is
    spelled out where it is computed without rounding. *)
Theorem read_request_in_full
    (tableName : string) (cs : list chain_call) (t : read_trigger) (w : world)
    (W : Z) :
  W = match t, last_limit cs None with
      | by_first, _ => 1
      | _, None => 1000
      | _, Some l => if (l =? 0)%Z then 1000 else l
      end ->
  (forall o, last_offset cs None = Some o -> range_end_exact o W) ->
  issued (snd (snd (read remote (chain (db tableName) cs) t) w))
  = issued w
    ++ [Supabase.mkRequest tableName
          (Supabase.select
             match t with
             | by_select columns => JS.default_param columns (JS.Str "*")
             | _ => JS.Str "*"
             end)
          (map eq_step (where_calls cs)
           ++ match orderBy_calls cs with
              | (f, d) :: _ =>
                  [Supabase.order f
                     (JS.is_string (JS.default_param d (JS.Str "asc")) "asc")]
              | [] => []
              end
           ++ match t, last_limit cs None with
              | by_first, _ => [Supabase.limit 1]
              | _, Some l => [Supabase.limit l]
              | _, None => []
              end
           ++ match last_offset cs None with
              | Some o => [Supabase.range o (o + W - 1)]
              | None => []
              end)].
Proof.
  intros -> _.
  rewrite read_is_execute, execute_world. cbn [issued]. do 2 f_equal.
  rewrite (request_eta (request_of _ _)).
  destruct t as [columns| |]; cbn [request_of];
    rewrite table_select_request, action_select_request, steps_select_request;
    unfold order_steps, limit_steps, range_steps, limit_or;
    cbn [set_limit _table _wheres _orders _limit _offset];
    rewrite table_chain, wheres_chain, orders_chain, ?limit_chain, offset_chain;
    cbn [db createQueryBuilder _table _wheres _orders _limit _offset app];
    rewrite map_where_steps;
    destruct (orderBy_calls cs) as [|[f d] later];
    destruct (last_limit cs None); reflexivity.
Qed.

Lemma hd_error_map {A B} (g : A -> B) (l l' : list A) :
  hd_error l = hd_error l' -> hd_error (map g l) = hd_error (map g l').
Proof.
  destruct l, l'; simpl; intros H; try discriminate; [reflexivity|].
  now injection H as ->.
Qed.

(** Two chains with the same [where] calls in the same order, the same
    first [orderBy], the same last [limit] and the same last [offset] give
    the same read: how the calls of different kinds are interleaved, and
    what earlier [limit] and [offset] calls said, does not matter. *)
Theorem read_insensitive_to_interleaving
    (tableName : string) (cs1 cs2 : list chain_call) (t : read_trigger)
    (w : world) :
  where_calls cs1 = where_calls cs2 ->
  hd_error (orderBy_calls cs1) = hd_error (orderBy_calls cs2) ->
  last_limit cs1 None = last_limit cs2 None ->
  last_offset cs1 None = last_offset cs2 None ->
  snd (read remote (chain (db tableName) cs1) t) w
  = snd (read remote (chain (db tableName) cs2) t) w.
Proof.
  intros Hw Ho Hl Hf. apply read_run_ext, request_of_read_ext.
  - now rewrite !table_chain.
  - now rewrite !wheres_chain, Hw.
  - rewrite !orders_chain. cbn [db createQueryBuilder _orders app].
    now apply hd_error_map.
  - rewrite !limit_chain. exact Hl.
  - rewrite !offset_chain. exact Hf.
Qed.

(** [limit]: the last call wins.  After [limit(n)] with no later [limit],
    [select] and awaiting the descriptor call the store's limit with [n],
    whatever limits were set before. *)
Theorem limit_last_call_wins
    (tableName : string) (before later : list chain_call) (n : Z)
    (t : read_trigger) (w : world) :
  forallb (fun c => negb (is_limit c)) later = true ->
  t <> by_first ->
  exists q,
    issued (snd (snd (read remote
                        (chain (db tableName) (before ++ call_limit n :: later))
                        t) w))
    = issued w ++ [q]
    /\ limits q = [n].
Proof.
  intros Hlater Ht.
  destruct (read_limits_ranges remote tableName
              (before ++ call_limit n :: later) t w) as (q & Hq & Hl & _).
  exists q. split; [exact Hq|].
  rewrite Hl, last_limit_app. cbn [last_limit].
  rewrite (last_limit_none_later later _ Hlater).
  destruct t; try reflexivity. contradiction.
Qed.

(** [offset]: the last call wins, and the range it asks for spans [W]
    rows from there: 1 under [first], else the limit in force when there
    is one and it is not 0, else 1000 -- as long as the end of the range
    is computed without rounding. *)
Theorem offset_last_call_wins
    (tableName : string) (before later : list chain_call) (n W : Z)
    (t : read_trigger) (w : world) :
  forallb (fun c => negb (is_offset c)) later = true ->
  W = match t, last_limit (before ++ call_offset n :: later) None with
      | by_first, _ => 1
      | _, None => 1000
      | _, Some l => if (l =? 0)%Z then 1000 else l
      end ->
  range_end_exact n W ->
  exists q,
    issued (snd (snd (read remote
                        (chain (db tableName) (before ++ call_offset n :: later))
                        t) w))
    = issued w ++ [q]
    /\ ranges q = [(n, n + W - 1)].
Proof.
  intros Hlater -> _.
  destruct (read_limits_ranges remote tableName
              (before ++ call_offset n :: later) t w) as (q & Hq & _ & Hr).
  exists q. split; [exact Hq|].
  rewrite Hr, last_offset_app. cbn [last_offset].
  rewrite (last_offset_none_later later _ Hlater).
  unfold limit_or.
  destruct t; try reflexivity;
    destruct (last_limit (before ++ call_offset n :: later) None); reflexivity.
Qed.

(** Without any [offset] call no range is requested, whatever the limit:
    the limit alone bounds the read. *)
Theorem no_offset_no_range
    (tableName : string) (cs : list chain_call) (t : read_trigger) (w : world) :
  forallb (fun c => negb (is_offset c)) cs = true ->
  exists q,
    issued (snd (snd (read remote (chain (db tableName) cs) t) w))
    = issued w ++ [q]
    /\ ranges q = [].
Proof.
  intros Hnone.
  destruct (read_limits_ranges remote tableName cs t w) as (q & Hq & _ & Hr).
  exists q. split; [exact Hq|].
  now rewrite Hr, (last_offset_none_later cs _ Hnone).
Qed.

(** [select()], [select('*')] and awaiting the descriptor are the same
    read; any other argument, [null] included, is passed to the store as
    the columns. *)
Theorem select_default_columns (this : descriptor) (columns : JS.value) (w : world) :
  snd (select remote this JS.Undefined) w = snd (select remote this (JS.Str "*")) w
  /\ snd (await_descriptor remote this) w
     = snd (select remote this (JS.Str "*")) w
  /\ (columns <> JS.Undefined ->
      exists q,
        issued (snd (snd (select remote this columns) w)) = issued w ++ [q]
        /\ Supabase.action q = Supabase.select columns).
Proof.
  split; [reflexivity|]. split.
  - now rewrite await_descriptor_run.
  - intros Hc. exists (select_request this columns).
    cbn [select snd]. rewrite _runSelect_run. cbn [snd issued].
    split; [reflexivity|]. rewrite action_select_request.
    destruct columns; try reflexivity. contradiction.
Qed.

(** ** What the terminal calls return *)

Lemma index0_of_truthy (v : JS.value) :
  JS.truthy v = true -> exists x, JS.index0 v = Some x.
Proof. destruct v; simpl; intros H; try discriminate; eauto. Qed.

Lemma truthy_or_array (data : JS.value) :
  JS.truthy (JS.or data (JS.Arr [])) = true.
Proof. unfold JS.or. now destruct (JS.truthy data) eqn:E. Qed.

(** [data[0]] after [data || []] always has something to index. *)
Lemma first_ok (this : descriptor) (w : world) (data error : JS.value) :
  fst (remote (request_of this (reading by_first)) (remote_state w))
  = Supabase.Settled data error ->
  JS.truthy error = false ->
  exists v,
    fst (snd (first remote this) w) = Ok v
    /\ (v = JS.Null \/ JS.truthy v = true).
Proof.
  intros Hr He. rewrite first_run, Hr, He. cbn [fst].
  destruct (index0_of_truthy _ (truthy_or_array data)) as (x & ->).
  exists (JS.or x JS.Null). split; [reflexivity|].
  unfold JS.or. destruct (JS.truthy x) eqn:Ex; auto.
Qed.

(** A read that the store answers without error returns the rows it was
    given, or an empty array when the store gave no data; the result is
    never [null] or [undefined], so a caller may index or iterate it. *)
Theorem select_returns_rows_or_empty
    (this : descriptor) (columns : JS.value) (w : world)
    (data error : JS.value) :
  fst (remote (request_of this (reading (by_select columns))) (remote_state w))
  = Supabase.Settled data error ->
  JS.truthy error = false ->
  (forall rows, data = JS.Arr rows ->
     fst (snd (select remote this columns) w) = Ok (JS.Arr rows))
  /\ (data = JS.Null \/ data = JS.Undefined ->
      fst (snd (select remote this columns) w) = Ok (JS.Arr []))
  /\ exists v,
       fst (snd (select remote this columns) w) = Ok v /\ JS.truthy v = true.
Proof.
  intros Hr He. cbn [select snd]. rewrite _runSelect_run.
  cbn [request_of] in Hr. rewrite Hr, He. cbn [fst].
  split; [|split].
  - now intros rows ->.
  - now intros [-> | ->].
  - eexists. split; [reflexivity | apply truthy_or_array].
Qed.

(** [first] raises nothing of its own: when the store answers without
    error it returns a value, and that value is [null] or truthy, never
    [undefined]. *)
Theorem first_returns_null_or_truthy
    (this : descriptor) (w : world) (data error : JS.value) :
  fst (remote (request_of this (reading by_first)) (remote_state w))
  = Supabase.Settled data error ->
  JS.truthy error = false ->
  exists v,
    fst (snd (first remote this) w) = Ok v
    /\ (v = JS.Null \/ JS.truthy v = true).
Proof.
  exact (first_ok this w data error).
Qed.

(** Of the terminal calls only [insert] can fail when the store reports
    no error: every read, [update] and [delete] then returns a value. *)
Theorem only_insert_fails_without_remote_error
    (this : descriptor) (t : terminal) (w : world) (data error : JS.value) :
  (forall payload, t <> inserting payload) ->
  fst (remote (request_of this t) (remote_state w))
  = Supabase.Settled data error ->
  JS.truthy error = false ->
  exists v, fst (snd (execute remote this t) w) = Ok v.
Proof.
  intros Ht Hr He.
  destruct t as [[columns| |]|payload|payload|]; cbn [execute read].
  - cbn [select snd]. rewrite _runSelect_run.
    cbn [request_of] in Hr. rewrite Hr, He. cbn [fst]. eauto.
  - destruct (first_ok this w data error Hr He) as (v & Hv & _). eauto.
  - rewrite await_descriptor_run, _runSelect_run.
    cbn [request_of] in Hr. rewrite Hr, He. cbn [fst]. eauto.
  - now destruct (Ht payload).
  - cbn [update snd]. rewrite _runUpdate_run.
    cbn [request_of] in Hr. rewrite Hr, He. cbn [fst]. eauto.
  - cbn [delete snd]. rewrite _runDelete_run.
    cbn [request_of] in Hr. rewrite Hr, He. cbn [fst]. eauto.
Qed.

Lemma map_id_objects (rows : list (list (string * JS.value))) :
  map_id (map JS.Obj rows) = Some (map (JS.lookup "id") rows).
Proof.
  induction rows as [|r rows IH]; [reflexivity|].
  cbn [map map_id JS.dot_id]. now rewrite IH.
Qed.

Lemma map_id_length (items ids : list JS.value) :
  map_id items = Some ids -> List.length ids = List.length items.
Proof.
  revert ids. induction items as [|i items IH]; intros ids H.
  - injection H as <-. reflexivity.
  - cbn [map_id] in H. destruct (JS.dot_id i); [|discriminate].
    destruct (map_id items) as [ids'|]; [|discriminate].
    injection H as <-. simpl. now rewrite (IH ids').
Qed.

Lemma map_id_nullish (items : list JS.value) :
  In JS.Null items \/ In JS.Undefined items -> map_id items = None.
Proof.
  induction items as [|i items IH]; intros H.
  - destruct H as [[]|[]].
  - cbn [map_id].
    assert (Hc : i = JS.Null \/ i = JS.Undefined
                 \/ (In JS.Null items \/ In JS.Undefined items)).
    { destruct H as [[H|H]|[H|H]]; auto. }
    destruct Hc as [-> | [-> | Hc]]; try reflexivity.
    rewrite (IH Hc). now destruct (JS.dot_id i).
Qed.

(** [insert] answers with the [id] of each row the store echoes back, in
    the store's order, [undefined] standing for a row without an [id];
    with no data echoed it answers with an empty array; and whenever it
    answers for an echoed array, it is with one entry per echoed row. *)
Theorem insert_returns_ids
    (this : descriptor) (payload : JS.value) (w : world)
    (data error : JS.value) :
  fst (remote (request_of this (inserting payload)) (remote_state w))
  = Supabase.Settled data error ->
  JS.truthy error = false ->
  (forall rows, data = JS.Arr (map JS.Obj rows) ->
     fst (snd (insert remote this payload) w)
     = Ok (JS.Arr (map (JS.lookup "id") rows)))
  /\ (data = JS.Null \/ data = JS.Undefined ->
      fst (snd (insert remote this payload) w) = Ok (JS.Arr []))
  /\ (forall items v, data = JS.Arr items ->
      fst (snd (insert remote this payload) w) = Ok v ->
      exists ids, v = JS.Arr ids /\ List.length ids = List.length items).
Proof.
  intros Hr He. cbn [insert snd]. rewrite _runInsert_run.
  cbn [request_of] in Hr. rewrite Hr, He. cbn [fst]. split; [|split].
  - intros rows ->. cbn [optional_map_id]. now rewrite map_id_objects.
  - now intros [-> | ->].
  - intros items v ->. cbn [optional_map_id].
    destruct (map_id items) as [ids|] eqn:E; cbn [option_map]; [|discriminate].
    intros H. injection H as <-. exists ids. split; [reflexivity|].
    now apply map_id_length.
Qed.

(** [insert] fails with a TypeError, after the request has gone out and
    although the store reported no error, when the echoed data is not an
    array (and not nullish) or has a [null] or [undefined] among its
    rows. *)
Theorem insert_throws_on_unusable_data
    (this : descriptor) (payload : JS.value) (w : world)
    (data error : JS.value) :
  fst (remote (request_of this (inserting payload)) (remote_state w))
  = Supabase.Settled data error ->
  JS.truthy error = false ->
  (exists items,
     data = JS.Arr items /\ (In JS.Null items \/ In JS.Undefined items))
  \/ match data with
     | JS.Arr _ | JS.Null | JS.Undefined => False
     | _ => True
     end ->
  fst (snd (insert remote this payload) w) = Throw JS.TypeError
  /\ issued (snd (snd (insert remote this payload) w))
     = issued w ++ [request_of this (inserting payload)].
Proof.
  intros Hr He Hbad. cbn [insert snd]. rewrite _runInsert_run.
  cbn [request_of] in *. rewrite Hr, He. cbn [fst snd issued].
  split; [|reflexivity].
  destruct Hbad as [(items & -> & Hin) | Hbad].
  - cbn [optional_map_id]. now rewrite (map_id_nullish items Hin).
  - destruct data; try contradiction; reflexivity.
Qed.

(** ** What the writes send *)

(** [insert] sends the table, the payload and the request for the rows
    back, and nothing of the chain: [where], [orderBy], [limit] and
    [offset] calls made before it are not applied. *)
Theorem insert_ignores_chain
    (tableName : string) (cs : list chain_call) (payload : JS.value)
    (w : world) :
  issued (snd (snd (insert remote (chain (db tableName) cs) payload) w))
  = issued w
    ++ [Supabase.mkRequest tableName (Supabase.insert payload)
          [Supabase.returning]].
Proof.
  cbn [insert snd]. rewrite _runInsert_run. cbn [snd issued].
  unfold insert_request. cbn [set_inserts _table _inserts].
  now rewrite table_chain.
Qed.

(** [update] sends its payload filtered by the [where] calls, in call
    order, and by nothing else: a limit, an offset or a sort set on the
    descriptor does not reach the store, and with no [where] call the
    update is unfiltered. *)
Theorem update_filters_by_where_only
    (tableName : string) (cs : list chain_call) (payload : JS.value)
    (w : world) :
  issued (snd (snd (update remote (chain (db tableName) cs) payload) w))
  = issued w
    ++ [Supabase.mkRequest tableName (Supabase.update payload)
          (map eq_step (where_calls cs))].
Proof.
  cbn [update snd]. rewrite _runUpdate_run. cbn [snd issued].
  unfold update_request. rewrite apply_wheres_shape.
  cbn [set_updates _table _wheres _updates Supabase.from Supabase.table
       Supabase.action Supabase.steps app].
  rewrite table_chain, wheres_chain.
  cbn [db createQueryBuilder _table _wheres app].
  now rewrite map_where_steps.
Qed.

(** [delete] sends the [where] filters, in call order, and nothing else
    of the chain; when the store reports no error it returns 1, whatever
    the store says of the rows deleted. *)
Theorem delete_filters_by_where_and_returns_one
    (tableName : string) (cs : list chain_call) (w : world)
    (data error : JS.value) :
  fst (remote (Supabase.mkRequest tableName Supabase.delete
                 (map eq_step (where_calls cs))) (remote_state w))
  = Supabase.Settled data error ->
  JS.truthy error = false ->
  issued (snd (snd (delete remote (chain (db tableName) cs)) w))
  = issued w
    ++ [Supabase.mkRequest tableName Supabase.delete
          (map eq_step (where_calls cs))]
  /\ fst (snd (delete remote (chain (db tableName) cs)) w) = Ok (JS.Num 1).
Proof.
  intros Hr He.
  assert (E : delete_request (chain (db tableName) cs)
              = Supabase.mkRequest tableName Supabase.delete
                  (map eq_step (where_calls cs))).
  { unfold delete_request. rewrite apply_wheres_shape.
    cbn [Supabase.from Supabase.table Supabase.action Supabase.steps app].
    rewrite table_chain, wheres_chain.
    cbn [db createQueryBuilder _table _wheres app].
    now rewrite map_where_steps. }
  cbn [delete snd]. rewrite _runDelete_run, E, Hr, He. split; reflexivity.
Qed.

(** ** Failures of the client itself *)

(** When the store's client throws instead of answering, every terminal
    call throws the same value, after that one request: [first] does not
    turn it into [null], and nothing is retried or logged. *)
Theorem rejection_thrown_unchanged
    (this : descriptor) (t : terminal) (w : world) (e : JS.exn) :
  fst (remote (request_of this t) (remote_state w)) = Supabase.Rejected e ->
  snd (execute remote this t) w
  = (Throw e,
     mkWorld (snd (remote (request_of this t) (remote_state w)))
       (issued w ++ [request_of this t]) (console w)).
Proof.
  intros Hr.
  destruct t as [[columns| |]|payload|payload|]; cbn [execute read].
  - cbn [select snd]. rewrite _runSelect_run.
    cbn [request_of] in *. now rewrite Hr.
  - rewrite first_run. now rewrite Hr.
  - rewrite await_descriptor_run, _runSelect_run.
    cbn [request_of] in *. now rewrite Hr.
  - cbn [insert snd]. rewrite _runInsert_run.
    cbn [request_of] in *. now rewrite Hr.
  - cbn [update snd]. rewrite _runUpdate_run.
    cbn [request_of] in *. now rewrite Hr.
  - cbn [delete snd]. rewrite _runDelete_run.
    cbn [request_of] in *. now rewrite Hr.
Qed.

(** ** The descriptor after a terminal call *)

(** No terminal call resets the descriptor.  After any series of terminal
    calls on it, table, filters, sorts and offset are as accumulated, and
    so is the limit, unless [first] was among the calls, which leaves it
    at 1. *)
Theorem terminals_keep_accumulated_state
    (this : descriptor) (ts : list terminal) :
  _table (reused remote this ts) = _table this
  /\ _wheres (reused remote this ts) = _wheres this
  /\ _orders (reused remote this ts) = _orders this
  /\ _offset (reused remote this ts) = _offset this
  /\ _limit (reused remote this ts)
     = if existsb is_first ts then Some 1 else _limit this.
Proof.
  revert this. induction ts as [|t ts IH]; intros this.
  - repeat split.
  - unfold reused. cbn [fold_left]. fold (reused remote (fst (execute remote this t)) ts).
    destruct (IH (fst (execute remote this t))) as (Ht & Hw & Ho & Hf & Hl).
    rewrite Ht, Hw, Ho, Hf, Hl. cbn [existsb].
    destruct t as [[columns| |]|payload|payload|];
      cbn [is_first orb]; repeat split;
      destruct (existsb is_first ts); reflexivity.
Qed.

(** Reading again from a descriptor that [first] has been called on: the
    read is still filtered by the same [where] calls, and it is limited to
    one row, whatever limit the chain had set. *)
Theorem select_after_first_is_limited_to_one
    (tableName : string) (cs : list chain_call) (columns : JS.value)
    (w : world) :
  exists q,
    issued (snd (snd (select remote
                        (fst (first remote (chain (db tableName) cs)))
                        columns) w))
    = issued w ++ [q]
    /\ limits q = [1]
    /\ eq_conditions q = where_calls cs.
Proof.
  eexists. cbn [select first fst snd]. rewrite _runSelect_run.
  cbn [snd issued]. split; [reflexivity|].
  rewrite limits_select_request, eq_conditions_select_request.
  cbn [set_limit _limit _wheres]. split; [reflexivity|].
  rewrite wheres_chain. cbn [db createQueryBuilder _wheres app].
  apply map_entry_pairs.
Qed.

(** ** The stand-ins *)

Lemma stand_run (h : stand_in) (w : @world store) :
  exists logged,
    stand h w
    = (Ok tt, mkWorld (remote_state w) (issued w) (console w ++ logged)).
Proof.
  destruct h as [tableName|tableName| |event]; cbn [stand];
    unfold createTable, dropTable, destroy, on, bind, console_log, ret.
  - eexists. reflexivity.
  - eexists. reflexivity.
  - eexists. reflexivity.
  - destruct (JS.is_string event "error").
    + eexists. reflexivity.
    + exists []. rewrite app_nil_r. now destruct w.
Qed.

(** The outcome of a terminal call is decided by the store alone, not by
    what has been logged or sent before. *)
Lemma execute_outcome_by_store
    (this : descriptor) (t : terminal) (w1 w2 : world) :
  remote_state w1 = remote_state w2 ->
  fst (snd (execute remote this t) w1) = fst (snd (execute remote this t) w2)
  /\ remote_state (snd (snd (execute remote this t) w1))
     = remote_state (snd (snd (execute remote this t) w2)).
Proof.
  intros E. rewrite !execute_world. cbn [remote_state]. rewrite E.
  split; [|reflexivity].
  destruct t as [[columns| |]|payload|payload|]; cbn [execute read].
  - cbn [select snd]. rewrite !_runSelect_run. cbn [fst]. now rewrite E.
  - rewrite !first_run. cbn [fst]. now rewrite E.
  - rewrite !await_descriptor_run, !_runSelect_run. cbn [fst]. now rewrite E.
  - cbn [insert snd]. rewrite !_runInsert_run. cbn [fst]. now rewrite E.
  - cbn [update snd]. rewrite !_runUpdate_run. cbn [fst]. now rewrite E.
  - cbn [delete snd]. rewrite !_runDelete_run. cbn [fst]. now rewrite E.
Qed.

(** [createTable], [dropTable], [destroy] and [on] never throw, send no
    request and leave the store alone; so any terminal call made after one
    of them -- after [destroy] too -- sends the same request, ends the
    same way and leaves the store the same as if made without it. *)
Theorem stand_ins_never_reach_store
    (h : stand_in) (this : descriptor) (t : terminal) (w : world) :
  fst (stand h w) = Ok tt
  /\ issued (snd (stand h w)) = issued w
  /\ remote_state (snd (stand h w)) = remote_state w
  /\ fst (snd (execute remote this t) (snd (stand h w)))
     = fst (snd (execute remote this t) w)
  /\ issued (snd (snd (execute remote this t) (snd (stand h w))))
     = issued (snd (snd (execute remote this t) w))
  /\ remote_state (snd (snd (execute remote this t) (snd (stand h w))))
     = remote_state (snd (snd (execute remote this t) w)).
Proof.
  destruct (stand_run h w) as (logged & ->). cbn [fst snd issued remote_state].
  repeat split.
  - now apply execute_outcome_by_store.
  - now rewrite !execute_world.
  - now apply execute_outcome_by_store.
Qed.

(** [createTable] and [dropTable] answer [true] and change nothing of
    what [hasTable] finds: a table "created" is reported missing as
    before, a table "dropped" is reported present as before. *)
Theorem schema_changes_do_not_change_hasTable
    {B : Type} (tableName probed : string) (tableBuilder : B) (w : world) :
  fst (createTable tableName tableBuilder w) = Ok (JS.Bool true)
  /\ fst (dropTable tableName w) = Ok (JS.Bool true)
  /\ fst (hasTable remote probed (snd (createTable tableName tableBuilder w)))
     = fst (hasTable remote probed w)
  /\ fst (hasTable remote probed (snd (dropTable tableName w)))
     = fst (hasTable remote probed w).
Proof.
  repeat split; now rewrite !hasTable_run.
Qed.

(** [on] hands back [db] whatever the event; it logs one line for the
    event ['error'] and does nothing at all for any other. *)
Lemma on_logs_only_for_error
    {B : Type} (event : JS.value) (callback : B) (w : @world store) :
  fst (on event callback w) = Ok db
  /\ (event = JS.Str "error" ->
      snd (on event callback w)
      = mkWorld (remote_state w) (issued w)
          (console w ++ ["[SUPABASE SHIM] Registered error handler"]))
  /\ (event <> JS.Str "error" -> snd (on event callback w) = w).
Proof.
  unfold on, bind, console_log, ret. split; [|split].
  - now destruct (JS.is_string event "error").
  - now intros ->.
  - intros Hne. destruct (JS.is_string event "error") eqn:E; [|reflexivity].
    destruct event; try discriminate. apply String.eqb_eq in E.
    now subst.
Qed.

End Further.

(** * Concrete runs of the further properties *)

Lemma read_insensitive_to_interleaving_witness :
  snd (read no_rows
         (chain (db "users")
            [call_limit 5; call_where "team" (JS.Str "a"); call_offset 2;
             call_limit 10; call_orderBy "name" (JS.Str "desc")])
         by_await) quiet
  = snd (read no_rows
           (chain (db "users")
              [call_where "team" (JS.Str "a");
               call_orderBy "name" (JS.Str "desc");
               call_orderBy "age" JS.Undefined;
               call_offset 2; call_limit 10])
           by_await) quiet.
Proof.
  apply (read_insensitive_to_interleaving no_rows "users"); reflexivity.
Defined.

Lemma limit_last_call_wins_witness :
  exists q,
    issued (snd (snd (read no_rows
                        (chain (db "users")
                           ([call_limit 5; call_where "team" (JS.Str "a")]
                            ++ call_limit 10 :: [call_offset 3]))
                        by_await) quiet))
    = issued quiet ++ [q]
    /\ limits q = [10].
Proof.
  apply (limit_last_call_wins no_rows "users"
           [call_limit 5; call_where "team" (JS.Str "a")] [call_offset 3] 10
           by_await quiet); [reflexivity | discriminate].
Defined.

Lemma offset_last_call_wins_witness :
  range_end_exact 20 5
  /\ exists q,
       issued (snd (snd (read no_rows
                           (chain (db "users")
                              ([call_offset 7] ++ call_offset 20 :: [call_limit 5]))
                           (by_select JS.Undefined)) quiet))
       = issued quiet ++ [q]
       /\ ranges q = [(20, 20 + 5 - 1)].
Proof.
  assert (E : range_end_exact 20 5) by (repeat split; discriminate).
  split; [exact E|].
  apply (offset_last_call_wins no_rows "users" [call_offset 7] [call_limit 5]
           20 5 (by_select JS.Undefined) quiet); [reflexivity | reflexivity | exact E].
Defined.

Lemma read_request_in_full_witness :
  range_end_exact 20 5
  /\ issued (snd (snd (read no_rows
                         (chain (db "users")
                            [call_limit 5; call_where "team" (JS.Str "a");
                             call_offset 20; call_orderBy "name" JS.Undefined])
                         by_await) quiet))
     = issued quiet
       ++ [Supabase.mkRequest "users" (Supabase.select (JS.Str "*"))
             [Supabase.eq "team" (JS.Str "a"); Supabase.order "name" true;
              Supabase.limit 5; Supabase.range 20 24]].
Proof.
  assert (E : range_end_exact 20 5) by (repeat split; discriminate).
  split; [exact E|].
  apply (read_request_in_full no_rows "users"
           [call_limit 5; call_where "team" (JS.Str "a");
            call_offset 20; call_orderBy "name" JS.Undefined]
           by_await quiet 5); [reflexivity|].
  intros o H. injection H as <-. exact E.
Defined.

Lemma no_offset_no_range_witness :
  exists q,
    issued (snd (snd (read no_rows (chain (db "users") [call_limit 5])
                        by_first) quiet))
    = issued quiet ++ [q]
    /\ ranges q = [].
Proof.
  apply (no_offset_no_range no_rows "users" [call_limit 5] by_first quiet).
  reflexivity.
Defined.

Lemma select_default_columns_witness :
  JS.Str "id,name" <> JS.Undefined
  /\ exists q,
       issued (snd (snd (select no_rows (db "users") (JS.Str "id,name")) quiet))
       = issued quiet ++ [q]
       /\ Supabase.action q = Supabase.select (JS.Str "id,name").
Proof.
  split; [discriminate|].
  apply (proj2 (proj2 (select_default_columns no_rows (db "users")
                         (JS.Str "id,name") quiet))).
  discriminate.
Defined.

Lemma select_returns_rows_or_empty_witness :
  fst (counting (request_of (db "users") (reading (by_select JS.Undefined)))
         (remote_state (mkWorld 0%nat [] [])))
  = Supabase.Settled JS.Null JS.Null
  /\ JS.truthy JS.Null = false
  /\ fst (snd (select counting (db "users") JS.Undefined) (mkWorld 0%nat [] []))
     = Ok (JS.Arr []).
Proof.
  split; [reflexivity|]. split; [reflexivity|].
  refine (proj1 (proj2
            (select_returns_rows_or_empty counting (db "users") JS.Undefined
               (mkWorld 0%nat [] []) JS.Null JS.Null eq_refl eq_refl)) _).
  left. reflexivity.
Defined.

Lemma first_returns_null_or_truthy_witness :
  fst (no_rows (request_of (db "users") (reading by_first)) (remote_state quiet))
  = Supabase.Settled (JS.Arr []) JS.Null
  /\ JS.truthy JS.Null = false
  /\ exists v,
       fst (snd (first no_rows (db "users")) quiet) = Ok v
       /\ (v = JS.Null \/ JS.truthy v = true).
Proof.
  split; [reflexivity|]. split; [reflexivity|].
  exact (first_returns_null_or_truthy no_rows (db "users") quiet
           (JS.Arr []) JS.Null eq_refl eq_refl).
Defined.

Lemma only_insert_fails_without_remote_error_witness :
  (forall payload, deleting <> inserting payload)
  /\ fst (no_rows (request_of (db "users") deleting) (remote_state quiet))
     = Supabase.Settled (JS.Arr []) JS.Null
  /\ JS.truthy JS.Null = false
  /\ exists v, fst (snd (execute no_rows (db "users") deleting) quiet) = Ok v.
Proof.
  split; [discriminate|]. split; [reflexivity|]. split; [reflexivity|].
  apply (only_insert_fails_without_remote_error no_rows (db "users") deleting
           quiet (JS.Arr []) JS.Null); [discriminate | reflexivity | reflexivity].
Defined.

Lemma insert_returns_ids_witness :
  fst (two_users (request_of (db "users")
                    (inserting (JS.Arr [JS.Obj [("name", JS.Str "ada")];
                                        JS.Obj [("name", JS.Str "bob")]])))
         (remote_state quiet))
  = Supabase.Settled
      (JS.Arr (map JS.Obj [[("id", JS.Num 1); ("name", JS.Str "ada")];
                           [("id", JS.Num 2); ("name", JS.Str "bob")]]))
      JS.Null
  /\ JS.truthy JS.Null = false
  /\ fst (snd (insert two_users (db "users")
                 (JS.Arr [JS.Obj [("name", JS.Str "ada")];
                          JS.Obj [("name", JS.Str "bob")]])) quiet)
     = Ok (JS.Arr [JS.Num 1; JS.Num 2]).
Proof.
  split; [reflexivity|]. split; [reflexivity|].
  exact (proj1 (insert_returns_ids two_users (db "users") _ quiet _ JS.Null
                  eq_refl eq_refl)
           [[("id", JS.Num 1); ("name", JS.Str "ada")];
            [("id", JS.Num 2); ("name", JS.Str "bob")]] eq_refl).
Defined.

Lemma insert_throws_on_unusable_data_witness :
  fst (holed (request_of (db "users") (inserting (JS.Obj [("name", JS.Str "ada")])))
         (remote_state quiet))
  = Supabase.Settled (JS.Arr [JS.Obj [("id", JS.Num 1)]; JS.Null]) JS.Null
  /\ JS.truthy JS.Null = false
  /\ In JS.Null [JS.Obj [("id", JS.Num 1)]; JS.Null]
  /\ fst (snd (insert holed (db "users") (JS.Obj [("name", JS.Str "ada")])) quiet)
     = Throw JS.TypeError.
Proof.
  split; [reflexivity|]. split; [reflexivity|].
  split; [right; left; reflexivity|].
  refine (proj1 (insert_throws_on_unusable_data holed (db "users")
                   (JS.Obj [("name", JS.Str "ada")]) quiet _ JS.Null
                   eq_refl eq_refl _)).
  left. exists [JS.Obj [("id", JS.Num 1)]; JS.Null].
  split; [reflexivity|]. left. right. left. reflexivity.
Defined.

Lemma delete_filters_by_where_and_returns_one_witness :
  issued (snd (snd (delete no_rows
                      (chain (db "users")
                         [call_where "id" (JS.Num 7); call_limit 1])) quiet))
  = issued quiet
    ++ [Supabase.mkRequest "users" Supabase.delete
          [Supabase.eq "id" (JS.Num 7)]]
  /\ fst (snd (delete no_rows
                 (chain (db "users")
                    [call_where "id" (JS.Num 7); call_limit 1])) quiet)
     = Ok (JS.Num 1).
Proof.
  apply (delete_filters_by_where_and_returns_one no_rows "users"
           [call_where "id" (JS.Num 7); call_limit 1] quiet (JS.Arr []) JS.Null);
    reflexivity.
Defined.

Lemma rejection_thrown_unchanged_witness :
  fst (unreachable (request_of (db "users") (reading by_first))
         (remote_state quiet))
  = Supabase.Rejected fetch_failed
  /\ fst (snd (execute unreachable (db "users") (reading by_first)) quiet)
     = Throw fetch_failed.
Proof.
  split; [reflexivity|].
  exact (f_equal fst
           (rejection_thrown_unchanged unreachable (db "users")
              (reading by_first) quiet fetch_failed eq_refl)).
Defined.
